(** * vt tester: mode state, trace recorder and run loop

    A shallow embedding of [go/tester/tester.go] and [go/tester/tracer.go].

    The Go code talks to collaborators that live outside the package: the two
    MySQL connections, the trace file, the reporter, the SQL parser, the inner
    query runner.  Every call that crosses that boundary is appended to a log
    ([hist]), and the answer of a collaborator is a function of the log so far
    ([Env]).  A Go panic raised by an index or a nil dereference written in the
    package itself is an outcome of its own ([Panic]). *)

From Stdlib Require Import String Ascii List Bool ZArith Lia.
From Stdlib Require Import DecimalString.
Import ListNotations.

Local Open Scope string_scope.
Local Open Scope list_scope.
Local Open Scope bool_scope.

(** ** Go values *)

(** A Go [error], identified with its message; a nil error is [None]. *)
Definition error := string.

(** The double quote and the line feed, as one-character strings. *)
Definition dquote : string := String (ascii_of_nat 34) EmptyString.
Definition newline : string := String (ascii_of_nat 10) EmptyString.

(** [fmt.Sprintf("%d", n)] for a Go [int]. *)
Definition itoa (n : Z) : string := NilZero.string_of_int (Z.to_int n).

(** [strings.Split(s, sep)] for a one-byte separator: one field per separator
    occurrence plus one, empty fields kept. *)
Fixpoint Split (s : string) (sep : ascii) : list string :=
  match s with
  | EmptyString => [EmptyString]
  | String c s' =>
      if Ascii.eqb c sep then EmptyString :: Split s' sep
      else match Split s' sep with
           | f :: fs => String c f :: fs
           | [] => [String c EmptyString]
           end
  end.

Definition space : ascii := ascii_of_nat 32.

(** [strs[i]] on a slice whose length has been checked. *)
Definition idx (strs : list string) (i : nat) : string := nth i strs EmptyString.

Definition olist {A} (o : option A) : list A :=
  match o with Some a => [a] | None => [] end.

Definition isSome {A} (o : option A) : bool :=
  match o with Some _ => true | None => false end.

(** ** Directives: packages [typ] and [data] *)

Module typ.
(** The directive kinds the tester and the key extractor switch on. *)
Inductive CmdType :=
| Query | Error | Skip | Unknown | Comment | CommentWithCommand | EmptyLine
| SkipIfBelowVersion | VExplain | WaitForAuthoritative | RemoveFile
| VitessOnly | MysqlOnly | Reference.
End typ.

Module data.
(** [data.Query]: the text, the line and the kind of one directive.  The
    Go field [Query] is [Query_] here, [Type] is [Type_]. *)
Record Query := mkQuery { Query_ : string; Line : Z; Type_ : typ.CmdType }.
End data.

(** [sqlparser.Statement], as far as the tester looks at it: the type switch of
    [sqlparser.IsDMLStatement] and the assertion to [sqlparser.SelectStatement]
    tell these kinds apart. *)
Inductive Statement :=
| SelectStmt | UnionStmt | InsertStmt | UpdateStmt | DeleteStmt | OtherStmt.

Definition IsDMLStatement (stmt : Statement) : bool :=
  match stmt with
  | InsertStmt | UpdateStmt | DeleteStmt => true
  | _ => false
  end.

(** [_, isSelect := cfg.ast.(sqlparser.SelectStatement)] *)
Definition isSelectStatement (stmt : Statement) : bool :=
  match stmt with
  | SelectStmt | UnionStmt => true
  | _ => false
  end.

Record QueryRunConfig := mkCfg {
  cfg_ast : Statement;
  cfg_vitess : bool;
  cfg_mysql : bool;
  cfg_reference : bool
}.

(** ** The mode state *)

Record testerState := mkState {
  skip : bool;
  skipBinary : string;
  skipVersion : Z;
  vitessOnly : bool;
  mysqlOnly : bool;
  reference : bool
}.

(** [&testerState{}] *)
Definition zeroState : testerState := mkState false "" 0 false false false.

Definition set_skip (b : bool) (st : testerState) : testerState :=
  mkState b (skipBinary st) (skipVersion st) (vitessOnly st) (mysqlOnly st) (reference st).
Definition set_skipBinary (s : string) (st : testerState) : testerState :=
  mkState (skip st) s (skipVersion st) (vitessOnly st) (mysqlOnly st) (reference st).
Definition set_skipVersion (v : Z) (st : testerState) : testerState :=
  mkState (skip st) (skipBinary st) v (vitessOnly st) (mysqlOnly st) (reference st).
Definition set_vitessOnly (b : bool) (st : testerState) : testerState :=
  mkState (skip st) (skipBinary st) (skipVersion st) b (mysqlOnly st) (reference st).
Definition set_mysqlOnly (b : bool) (st : testerState) : testerState :=
  mkState (skip st) (skipBinary st) (skipVersion st) (vitessOnly st) b (reference st).
Definition set_reference (b : bool) (st : testerState) : testerState :=
  mkState (skip st) (skipBinary st) (skipVersion st) (vitessOnly st) (mysqlOnly st) b.

Definition referenceNext (st : testerState) : testerState :=
  if vitessOnly st || mysqlOnly st || skip st then st
  else set_reference true st.

Definition shouldReference (st : testerState) : bool * testerState :=
  if reference st then (true, set_reference false st)
  else (false, st).

Definition skipNext (st : testerState) : testerState :=
  if vitessOnly st || mysqlOnly st || reference st then st
  else set_skip true st.

Definition skipIfBelow (binary : string) (version : Z) (st : testerState) : testerState :=
  set_skipVersion version (set_skipBinary binary st).

(** [atLeast] stands for [utils.BinaryIsAtLeastAtVersion]. *)
Definition shouldSkip (atLeast : Z -> string -> bool) (st : testerState)
  : bool * testerState :=
  if skip st then (true, set_skip false st)
  else if negb (skipBinary st =? "") then
    let okayToRun := atLeast (skipVersion st) (skipBinary st) in
    (negb okayToRun, set_skipBinary "" st)
  else (false, st).

Definition beginVitessOnly (st : testerState) : option error * testerState :=
  if vitessOnly st then (Some "nested vitess_only begin", st)
  else if mysqlOnly st then (Some "cannot begin vitess_only within mysql_only", st)
  else (None, set_vitessOnly true st).

Definition endVitessOnly (st : testerState) : option error * testerState :=
  if negb (vitessOnly st) then (Some "no vitess_only to end", st)
  else (None, set_vitessOnly false st).

Definition beginMySQLOnly (st : testerState) : option error * testerState :=
  if mysqlOnly st then (Some "nested mysql_only begin", st)
  else if vitessOnly st then (Some "cannot begin mysql_only within vitess_only", st)
  else (None, set_mysqlOnly true st).

Definition endMySQLOnly (st : testerState) : option error * testerState :=
  if negb (mysqlOnly st) then (Some "no vitess_only to end", st)
  else (None, set_mysqlOnly false st).

(** [begin] and [end_] are the method values bound to [t.state]. *)
Definition vitessOrMySQLOnly (query : string)
    (begin end_ : testerState -> option error * testerState)
    (st : testerState) : option error * testerState :=
  let strs := Split query space in
  if negb (length strs =? 2)%nat then (Some ("incorrect syntax in: " ++ query)%string, st)
  else if idx strs 1 =? "begin" then begin st
  else if idx strs 1 =? "end" then end_ st
  else (Some ("incorrect syntax in: " ++ query)%string, st).

(** ** The world outside the package *)

(** The two connections of [utils.MySQLCompare]: the reference backend and the
    target backend.  [Tracer.MySQLConn] and [Tracer.VtConn] always hold these
    two ([TracerFactory.NewQueryRunner]). *)
Inductive Conn := MySQLConn | VtConn.

(** [*sqltypes.Result]: the rows, each cell by its [ToString()]. *)
Record Result := mkResult { Rows : list (list string) }.

(** [*os.File]; only whether the pointer is nil matters here. *)
Inductive File := osFile (name : string).

(** One entry per call on a collaborator, in call order. *)
Inductive Event :=
| EvExecuteFetch (c : Conn) (sql : string) (maxrows : Z) (wantfields : bool)
| EvWrite (b : string)
| EvRunQuery (q : data.Query) (expectedErrs : bool) (cfg : QueryRunConfig)
| EvRemove (name : string)
| EvWaitForAuthoritative (ks tbl : string)
| EvAddTestCase (query : string) (line : Z)
| EvEndTestCase
| EvAddFailure (err : error)
| EvAddInfo (info : string).

(** [hist]: the calls made so far; [disk]: the bytes that reached the trace
    file through [Write]. *)
Record World := mkWorld { hist : list Event; disk : string }.

Definition log (e : Event) (w : World) : World :=
  mkWorld (hist w ++ [e]) (disk w).

Definition wrote (b written : string) (w : World) : World :=
  mkWorld (hist w ++ [EvWrite b]) (disk w ++ written).

(** What the collaborators answer.  Functions of the history are calls with
    effects; the others are pure library functions.
    - [execute_fetch]: [mysql.Conn.ExecuteFetch], a Go pair (result, err);
    - [file_write]: [os.File.Write] on an open file: [None] when all bytes
      were written, [Some (n, err)] when the write failed after [n] bytes;
    - [json_Marshal], [json_Indent]: [encoding/json], the latter at prefix
      [""] and indent ["  "];
    - [Aggregate]: [vterrors.Aggregate];
    - [Parse]: [sqlparser.NewTestParser().Parse];
    - [os_Remove], [WaitForAuthoritative], [BinaryIsAtLeastAtVersion]: [os]
      and [utils];
    - [Atoi], [TrimSpace]: [strconv] and [strings];
    - [CmdType_String]: [typ.CmdType.String]. *)
Record Env := mkEnv {
  execute_fetch : list Event -> Conn -> string -> Z -> bool -> option Result * option error;
  file_write : list Event -> string -> option (nat * error);
  json_Marshal : string -> error + string;
  json_Indent : string -> error + string;
  Aggregate : list error -> option error;
  Parse : string -> error + Statement;
  os_Remove : list Event -> string -> option error;
  WaitForAuthoritative : list Event -> string -> string -> option error;
  BinaryIsAtLeastAtVersion : Z -> string -> bool;
  Atoi : string -> error + Z;
  TrimSpace : string -> string;
  CmdType_String : typ.CmdType -> string
}.

(** [os.ErrInvalid], what [Write] on a nil [*os.File] returns. *)
Definition ErrInvalid : error := "invalid argument".

(** ** Computations: local state, world, and panics *)

Inductive Res (X A : Type) :=
| Done (a : A) (x : X) (w : World)
| Panic (x : X) (w : World).
Arguments Done {X A} a x w.
Arguments Panic {X A} x w.

Definition M (X A : Type) : Type := X -> World -> Res X A.

Definition ret {X A} (a : A) : M X A := fun x w => Done a x w.

Definition bind {X A B} (m : M X A) (k : A -> M X B) : M X B :=
  fun x w =>
    match m x w with
    | Done a x' w' => k a x' w'
    | Panic x' w' => Panic x' w'
    end.

Notation "x <- m ;; k" := (bind m (fun x => k))
  (at level 61, m at next level, right associativity).
Notation "m ;; k" := (bind m (fun _ => k))
  (at level 61, right associativity).

Definition panic {X A} : M X A := fun x w => Panic x w.
Definition get {X} : M X X := fun x w => Done x x w.
Definition modify {X} (f : X -> X) : M X unit := fun x w => Done tt (f x) w.
Definition emit {X} (e : Event) : M X unit := fun x w => Done tt x (log e w).

(** The local state and the world a computation stopped in. *)
Definition res_state {X A} (r : Res X A) : X :=
  match r with Done _ x _ => x | Panic x _ => x end.
Definition res_world {X A} (r : Res X A) : World :=
  match r with Done _ _ w => w | Panic _ w => w end.

(** Run [m] on a component of the local state. *)
Definition zoom {X R A} (getr : X -> R) (setr : R -> X -> X) (m : M R A) : M X A :=
  fun x w =>
    match m (getr x) w with
    | Done a r w' => Done a (setr r x) w'
    | Panic r w' => Panic (setr r x) w'
    end.

(** [rs.Rows[0][0].ToString()]: panics on a nil result, on no rows and on an
    empty first row. *)
Definition first_cell (rs : option Result) : option string :=
  match rs with
  | Some r => match Rows r with
              | (c :: _) :: _ => Some c
              | _ => None
              end
  | None => None
  end.

Definition first_cell_or_panic {X} (rs : option Result) : M X string :=
  match first_cell rs with
  | Some c => ret c
  | None => panic
  end.

(** The interface [QueryRunner]. *)
Class QueryRunner (R : Type) :=
  runQuery : data.Query -> bool -> QueryRunConfig -> M R (option error).

(** The reporter: calls without a result. *)
Definition AddTestCase {X} (query : string) (line : Z) : M X unit :=
  emit (EvAddTestCase query line).
Definition EndTestCase {X} : M X unit := emit EvEndTestCase.
Definition AddFailure {X} (err : error) : M X unit := emit (EvAddFailure err).
Definition AddInfo {X} (info : string) : M X unit := emit (EvAddInfo info).

Section Calls.
Variable E : Env.
Context {X : Type}.

Definition ExecuteFetch (c : Conn) (sql : string) (maxrows : Z) (wantfields : bool)
  : M X (option Result * option error) :=
  fun x w =>
    Done (execute_fetch E (hist w) c sql maxrows wantfields) x
         (log (EvExecuteFetch c sql maxrows wantfields) w).

(** [f.Write(b)], the byte count dropped as the callers do. *)
Definition Write (f : option File) (b : string) : M X (option error) :=
  match f with
  | None => ret (Some ErrInvalid)
  | Some _ =>
      fun x w =>
        match file_write E (hist w) b with
        | None => Done None x (wrote b b w)
        | Some (n, err) => Done (Some err) x (wrote b (substring 0 n b) w)
        end
  end.

Definition Remove (name : string) : M X (option error) :=
  fun x w => Done (os_Remove E (hist w) name) x (log (EvRemove name) w).

Definition utils_WaitForAuthoritative (ks tbl : string) : M X (option error) :=
  fun x w =>
    Done (WaitForAuthoritative E (hist w) ks tbl) x
         (log (EvWaitForAuthoritative ks tbl) w).
End Calls.

(** ** The trace recorder: tracer.go *)

Record Tracer (I : Type) := mkTracer {
  traceFile : option File;
  inner : I;
  alreadyWrittenTraces : bool
}.
Arguments mkTracer {I} traceFile inner alreadyWrittenTraces.
Arguments traceFile {I} t.
Arguments inner {I} t.
Arguments alreadyWrittenTraces {I} t.

Definition set_inner {I} (i : I) (t : Tracer I) : Tracer I :=
  mkTracer (traceFile t) i (alreadyWrittenTraces t).
Definition set_alreadyWrittenTraces {I} (b : bool) (t : Tracer I) : Tracer I :=
  mkTracer (traceFile t) (inner t) b.

Definition newTracer {I} (traceFile : option File) (inner : I) : Tracer I :=
  mkTracer traceFile inner false.

(** [fmt.Sprintf(`{"Query": %s, "LineNumber": "%d", "Trace": `, queryJSON, line)] *)
Definition entry_head (queryJSON : string) (line : Z) : string :=
  "{" ++ dquote ++ "Query" ++ dquote ++ ": " ++ queryJSON ++ ", "
      ++ dquote ++ "LineNumber" ++ dquote ++ ": " ++ dquote ++ itoa line ++ dquote ++ ", "
      ++ dquote ++ "Trace" ++ dquote ++ ": ".

(** The JSON object of one trace: the head, the indented trace, the closing
    brace. *)
Definition json_object (queryJSON : string) (line : Z) (prettyTrace : string) : string :=
  entry_head queryJSON line ++ prettyTrace ++ "}".

(** The bytes [trace] hands to [Write]: a comma when [alreadyWrittenTraces]
    is set, then the object. *)
Definition trace_entry (already : bool) (queryJSON : string) (line : Z) (prettyTrace : string)
  : string :=
  (if already then "," else "") ++ json_object queryJSON line prettyTrace.

Section TracerCode.
Variable E : Env.
Context {I : Type} {innerRunner : QueryRunner I}.

(** [t.inner.runQuery(q, expectErr, cfg)] *)
Definition inner_runQuery (q : data.Query) (expectErr : bool) (cfg : QueryRunConfig)
  : M (Tracer I) (option error) :=
  emit (EvRunQuery q expectErr cfg) ;;
  zoom inner set_inner (runQuery q expectErr cfg).

Definition Tracer_trace (query : data.Query) : M (Tracer I) (option error) :=
  match json_Marshal E (data.Query_ query) with
  | inl err => ret (Some err)
  | inr queryJSON =>
      r <- ExecuteFetch E VtConn ("vexplain trace " ++ data.Query_ query) 10000 false ;;
      match snd r with
      | Some err => ret (Some err)
      | None =>
          cell <- first_cell_or_panic (fst r) ;;
          match json_Indent E cell with
          | inl err => ret (Some err)
          | inr prettyTrace =>
              t <- get ;;
              let traceEntry :=
                trace_entry (alreadyWrittenTraces t) queryJSON (data.Line query) prettyTrace in
              modify (set_alreadyWrittenTraces true) ;;
              Write E (traceFile t) traceEntry
          end
      end
  end.

(** The guard of the branch that runs a DML once, while tracing. *)
Definition runs_dml_once (t : Tracer I) (expectErr : bool) (cfg : QueryRunConfig) : bool :=
  IsDMLStatement (cfg_ast cfg) && isSome (traceFile t) && negb expectErr && cfg_vitess cfg.

(** The guard of the trace taken after the inner runner. *)
Definition traces_after (cfg : QueryRunConfig) : bool :=
  cfg_vitess cfg && (isSelectStatement (cfg_ast cfg) || IsDMLStatement (cfg_ast cfg)).

Definition Tracer_runQuery (q : data.Query) (expectErr : bool) (cfg : QueryRunConfig)
  : M (Tracer I) (option error) :=
  t <- get ;;
  if runs_dml_once t expectErr cfg then
    err <- Tracer_trace q ;;
    let errs := olist err in
    errs <- (if cfg_mysql cfg then
               r <- ExecuteFetch E MySQLConn (data.Query_ q) 10000 false ;;
               ret (errs ++ olist (snd r))
             else ret errs) ;;
    ret (Aggregate E errs)
  else
    err <- inner_runQuery q expectErr cfg ;;
    match err with
    | Some e => ret (Some e)
    | None =>
        if traces_after cfg then Tracer_trace q
        else ret None
    end.
End TracerCode.

(** The tracer implements [QueryRunner] over any inner runner. *)
#[export] Instance Tracer_QueryRunner (E : Env) (I : Type) (innerRunner : QueryRunner I)
  : QueryRunner (Tracer I) := Tracer_runQuery E.

(** ** The tester: tester.go *)

(** The fields of [Tester] the run loop reads or writes.  [vschema] lists,
    per keyspace, the names of its tables; Go ranges over the two maps in an
    unspecified order, the lists fix one. *)
Record Tester (R : Type) := mkTester {
  vschema : list (string * list string);
  vexplain : string;
  expectedErrs : bool;
  state : testerState;
  qr : R
}.
Arguments mkTester {R} vschema vexplain expectedErrs state qr.
Arguments vschema {R} t.
Arguments vexplain {R} t.
Arguments expectedErrs {R} t.
Arguments state {R} t.
Arguments qr {R} t.

Definition set_vexplain {R} (s : string) (t : Tester R) : Tester R :=
  mkTester (vschema t) s (expectedErrs t) (state t) (qr t).
Definition set_expectedErrs {R} (b : bool) (t : Tester R) : Tester R :=
  mkTester (vschema t) (vexplain t) b (state t) (qr t).
Definition set_state {R} (st : testerState) (t : Tester R) : Tester R :=
  mkTester (vschema t) (vexplain t) (expectedErrs t) st (qr t).
Definition set_qr {R} (r : R) (t : Tester R) : Tester R :=
  mkTester (vschema t) (vexplain t) (expectedErrs t) (state t) r.

(** [NewTester], on the fields above: no pending explain mode, no expected
    error, [state: &testerState{}]. *)
Definition NewTester {R} (vschema : list (string * list string)) (qr : R) : Tester R :=
  mkTester vschema "" false zeroState qr.

(** A method of [testerState] called on [t.state]. *)
Definition on_state {R A} (f : testerState -> A * testerState) : M (Tester R) A :=
  fun t w => let r := f (state t) in Done (fst r) (set_state (snd r) t) w.

Definition update_state {R} (f : testerState -> testerState) : M (Tester R) unit :=
  modify (fun t => set_state (f (state t)) t).

(** The inner loop of [findTable]: the tables of keyspace [ksName]. *)
Fixpoint findTable_tables (name ksName : string) (tables : list string) (ks : string)
  : error + string :=
  match tables with
  | [] => inr ks
  | tbl :: rest =>
      if tbl =? name then
        if negb (ks =? "") then inl ("table " ++ name ++ " found in multiple keyspaces")%string
        else findTable_tables name ksName rest ksName
      else findTable_tables name ksName rest ks
  end.

Fixpoint findTable_keyspaces (name : string) (kss : list (string * list string)) (ks : string)
  : error + string :=
  match kss with
  | [] => inr ks
  | (ksName, tables) :: rest =>
      match findTable_tables name ksName tables ks with
      | inl err => inl err
      | inr ks' => findTable_keyspaces name rest ks'
      end
  end.

Definition findTable (kss : list (string * list string)) (name : string) : error + string :=
  match findTable_keyspaces name kss "" with
  | inl err => inl err
  | inr ks =>
      if ks =? "" then inl ("table " ++ name ++ " not found in any keyspace")%string
      else inr ks
  end.

Section TesterCode.
Variable E : Env.
Context {R : Type} {runner : QueryRunner R}.

(** [t.qr.runQuery(q, t.expectedErrs, cfg)] *)
Definition qr_runQuery (q : data.Query) (expectErr : bool) (cfg : QueryRunConfig)
  : M (Tester R) (option error) :=
  emit (EvRunQuery q expectErr cfg) ;;
  zoom qr set_qr (runQuery q expectErr cfg).

Definition Tester_runQuery (q : data.Query) : M (Tester R) unit :=
  skipped <- on_state (shouldSkip (BinaryIsAtLeastAtVersion E)) ;;
  if (skipped : bool) then ret tt
  else
    AddTestCase (data.Query_ q) (data.Line q) ;;
    match Parse E (data.Query_ q) with
    | inl err => AddFailure err
    | inr ast =>
        t <- get ;;
        ref <- on_state shouldReference ;;
        let cfg := mkCfg ast (negb (mysqlOnly (state t))) (negb (vitessOnly (state t))) ref in
        err <- qr_runQuery q (expectedErrs t) cfg ;;
        match err with
        | Some e => AddFailure e
        | None => ret tt
        end ;;
        EndTestCase ;;
        modify (set_expectedErrs false)
    end.

(** The call of [utils.WaitForAuthoritative] that ends [waitAuthoritative];
    the [log.Infof] before it is left out. *)
Definition wait_for (ksName tblName : string) : M (Tester R) unit :=
  err <- utils_WaitForAuthoritative E ksName tblName ;;
  match err with
  | Some e =>
      AddFailure ("failed to wait for authoritative schema for table "
                    ++ tblName ++ ": " ++ e)%string
  | None => ret tt
  end.

Definition waitAuthoritative (query : string) : M (Tester R) unit :=
  let strs := Split query space in
  match length strs with
  | 2%nat =>
      t <- get ;;
      match findTable (vschema t) (idx strs 1) with
      | inl err => AddFailure err
      | inr ksName => wait_for ksName (idx strs 1)
      end
  | 3%nat => wait_for (idx strs 2) (idx strs 1)
  | _ =>
      AddFailure ("expected table name and keyspace for wait_authoritative in: "
                    ++ query)%string ;;
      wait_for "" ""
  end.

(** The explain step of a query directive, taken when [t.vexplain != ""]. *)
Definition run_vexplain (q : data.Query) : M (Tester R) unit :=
  t <- get ;;
  r <- ExecuteFetch E VtConn ("vexplain " ++ vexplain t ++ " " ++ data.Query_ q) (-1) false ;;
  modify (set_vexplain "") ;;
  match snd r with
  | Some err => AddFailure err
  | None => ret tt
  end ;;
  cell <- first_cell_or_panic (fst r) ;;
  AddInfo ("VExplain Output:" ++ newline ++ " " ++ cell ++ newline)%string.

(** The report of a scope directive's error. *)
Definition report_if_error (err : option error) : M (Tester R) unit :=
  match err with
  | Some e => AddFailure e
  | None => ret tt
  end.

(** One iteration of the loop of [Run].  The result is [Some err] when the
    iteration leaves [Run] by [return err], [None] when the loop goes on
    (the end of the switch, or [continue]). *)
Definition Run_step (q : data.Query) : M (Tester R) (option error) :=
  match data.Type_ q with
  | typ.Skip => update_state skipNext ;; ret None
  | typ.SkipIfBelowVersion =>
      let strs := Split (data.Query_ q) space in
      if negb (length strs =? 3)%nat then
        AddFailure ("incorrect syntax for typ.Q_SKIP_IF_BELOW_VERSION in: "
                      ++ data.Query_ q)%string ;;
        ret None
      else
        match Atoi E (idx strs 2) with
        | inl err => AddFailure err ;; ret None
        | inr v => update_state (skipIfBelow (idx strs 1) v) ;; ret None
        end
  | typ.Error => modify (set_expectedErrs true) ;; ret None
  | typ.VExplain =>
      let strs := Split (data.Query_ q) space in
      if negb (length strs =? 2)%nat then
        AddFailure ("incorrect syntax for typ.VExplain in: " ++ data.Query_ q)%string ;;
        ret None
      else modify (set_vexplain (idx strs 1)) ;; ret None
  | typ.WaitForAuthoritative => waitAuthoritative (data.Query_ q) ;; ret None
  | typ.Query =>
      t <- get ;;
      (if negb (vexplain t =? "") then run_vexplain q else ret tt) ;;
      Tester_runQuery q ;;
      ret None
  | typ.RemoveFile =>
      err <- Remove E (TrimSpace E (data.Query_ q)) ;;
      match err with
      | Some e => ret (Some ("failed to remove file: " ++ e)%string)
      | None => ret None
      end
  | typ.VitessOnly =>
      err <- on_state (vitessOrMySQLOnly (data.Query_ q) beginVitessOnly endVitessOnly) ;;
      report_if_error err ;;
      ret None
  | typ.MysqlOnly =>
      err <- on_state (vitessOrMySQLOnly (data.Query_ q) beginMySQLOnly endMySQLOnly) ;;
      report_if_error err ;;
      ret None
  | typ.Reference => update_state referenceNext ;; ret None
  | _ =>
      AddFailure (CmdType_String E (data.Type_ q) ++ " not supported")%string ;;
      ret None
  end.

(** [for _, q := range queries { switch q.Type { ... } }] of [Run]: [Some err]
    when an iteration returned [err] from [Run], [None] when the range was
    used up (after which [Run] prints the report and returns nil). *)
Fixpoint Run_loop (queries : list data.Query) : M (Tester R) (option error) :=
  match queries with
  | [] => ret None
  | q :: rest =>
      r <- Run_step q ;;
      match r with
      | Some err => ret (Some err)
      | None => Run_loop rest
      end
  end.
End TesterCode.

(** ** Observations on a run *)

Definition is_exec (e : Event) : bool :=
  match e with EvExecuteFetch _ _ _ _ => true | _ => false end.
Definition is_runQuery (e : Event) : bool :=
  match e with EvRunQuery _ _ _ => true | _ => false end.
Definition is_write (e : Event) : bool :=
  match e with EvWrite _ => true | _ => false end.

(** The two only-scopes are not both open. *)
Definition exclusive (st : testerState) : Prop :=
  vitessOnly st && mysqlOnly st = false.

(** A computation that returns from every state and world. *)
Definition always_returns {X A} (m : M X A) : Prop :=
  forall x w, exists a x' w', m x w = Done a x' w'.

(** The property of a tester the loop keeps. *)
Definition scopes_ok {R} (t : Tester R) : Prop := exclusive (state t).

(** A computation that keeps a property of the local state, however it ends. *)
Definition keeps {X A} (P : X -> Prop) (m : M X A) : Prop :=
  forall x w, P x -> P (res_state (m x w)).

(** The answer to an explain call can be used: an error, or a result with a
    first cell. *)
Definition usable (r : option Result * option error) : bool :=
  isSome (snd r) || isSome (first_cell (fst r)).

(** The statement sent to the target for the trace of [q]. *)
Definition trace_sql (q : data.Query) : string := "vexplain trace " ++ data.Query_ q.

(** The statement sent to the target for a pending explain mode. *)
Definition vexplain_sql (mode : string) (q : data.Query) : string :=
  "vexplain " ++ mode ++ " " ++ data.Query_ q.

(** ** A concrete environment and runner, for examples *)

Inductive StubRunner := stubRunner.

(** A base runner that accepts every statement. *)
#[export] Instance StubRunner_QueryRunner : QueryRunner StubRunner :=
  fun _ _ _ => ret None.

Definition quoted (s : string) : string := dquote ++ s ++ dquote.

Fixpoint join_errors (errs : list error) : string :=
  match errs with
  | [] => ""
  | [e] => e
  | e :: rest => e ++ newline ++ join_errors rest
  end.

Definition example_Aggregate (errs : list error) : option error :=
  match errs with
  | [] => None
  | _ => Some (join_errors errs)
  end.

Definition example_Parse (s : string) : error + Statement :=
  if prefix "select" s then inr SelectStmt
  else if prefix "insert" s then inr InsertStmt
  else if prefix "update" s then inr UpdateStmt
  else if prefix "delete" s then inr DeleteStmt
  else if prefix "create" s then inr OtherStmt
  else inl ("syntax error near " ++ quoted s)%string.

Definition example_Atoi (s : string) : error + Z :=
  if s =? "" then inl "strconv.Atoi: invalid syntax"
  else match NilZero.int_of_string s with
       | Some d => inr (Z.of_int d)
       | None => inl "strconv.Atoi: invalid syntax"
       end.

Definition example_String (c : typ.CmdType) : string :=
  match c with
  | typ.Query => "Query" | typ.Error => "Error" | typ.Skip => "Skip"
  | typ.Unknown => "Unknown" | typ.Comment => "Comment"
  | typ.CommentWithCommand => "CommentWithCommand" | typ.EmptyLine => "EmptyLine"
  | typ.SkipIfBelowVersion => "SkipIfBelowVersion" | typ.VExplain => "VExplain"
  | typ.WaitForAuthoritative => "WaitForAuthoritative" | typ.RemoveFile => "RemoveFile"
  | typ.VitessOnly => "VitessOnly" | typ.MysqlOnly => "MysqlOnly"
  | typ.Reference => "Reference"
  end.

(** Backends that answer every statement with the one cell ["{}"]; the file
    write and the file removal are left to the two arguments. *)
Definition exampleEnv
    (write : list Event -> string -> option (nat * error))
    (remove : list Event -> string -> option error) : Env :=
  mkEnv (fun _ _ _ _ _ => (Some (mkResult [["{}"]]), None))
        write
        (fun s => inr (quoted s))
        (fun s => inr s)
        example_Aggregate
        example_Parse
        remove
        (fun _ _ _ => None)
        (fun version _ => (version <=? 80000)%Z)
        example_Atoi
        (fun s => s)
        example_String.

Definition write_ok : list Event -> string -> option (nat * error) :=
  fun _ _ => None.

(** The first write fails before any byte is written, the later ones pass. *)
Definition write_fails_first : list Event -> string -> option (nat * error) :=
  fun h _ => if existsb is_write h then None else Some (0%nat, "no space left on device").

Definition remove_ok : list Event -> string -> option error :=
  fun _ _ => None.

Definition remove_fails : list Event -> string -> option error :=
  fun _ name => Some ("remove " ++ name ++ ": no such file or directory")%string.

Definition goodEnv : Env := exampleEnv write_ok remove_ok.

Definition emptyWorld : World := mkWorld [] "".

Definition directive (kind : typ.CmdType) (text : string) (line : Z) : data.Query :=
  data.mkQuery text line kind.

(** Queries, tracers and worlds used in the examples. *)
Definition insert1 : data.Query := directive typ.Query "insert into t values (1)" 1.
Definition select2 : data.Query := directive typ.Query "select 2" 2.
Definition insert_cfg : QueryRunConfig := mkCfg InsertStmt true true false.
Definition select_cfg : QueryRunConfig := mkCfg SelectStmt true true false.
Definition tracer0 : Tracer StubRunner := newTracer (Some (osFile "trace.json")) stubRunner.
Definition opened : World := mkWorld [] "[".
Definition diskFullEnv : Env := exampleEnv write_fails_first remove_ok.

(** Directive streams and environments used in the examples. *)
Definition skipped_stream : list data.Query :=
  [directive typ.Error "error" 1; directive typ.Skip "skip" 2; directive typ.Query "select 2" 3].
Definition remove_stream : list data.Query :=
  [directive typ.RemoveFile "gone.txt" 1; directive typ.Skip "skip" 2].
Definition noRemoveEnv : Env := exampleEnv write_ok remove_fails.

(** States used in the examples. *)
Definition scope_open_vitess : testerState := set_vitessOnly true zeroState.
Definition gate_state : testerState := skipIfBelow "mysqld" 80000 zeroState.

(** ** Transaction signatures: package transactions *)

Module transactions.

(** [predicateInfo]; [PredOp] is the Go field [Op], a
    [sqlparser.ComparisonExprOperator] (an [int8]). *)
Record predicateInfo := mkPredicate {
  Table : string;
  Col : string;
  PredOp : Z;
  Val : Z
}.

Record TxQuery := mkTxQuery {
  Op : string;
  AffectedTable : string;
  UpdatedColumns : list string;
  Predicates : list predicateInfo
}.

Record TxSignature := mkTxSignature {
  Count : Z;
  Queries : list TxQuery
}.

Definition set_Val (v : Z) (p : predicateInfo) : predicateInfo :=
  mkPredicate (Table p) (Col p) (PredOp p) v.
Definition set_Count (c : Z) (tx : TxSignature) : TxSignature :=
  mkTxSignature c (Queries tx).

(** A Go [int] after an addition: two's complement on 64 bits. *)
Definition wrap_int (z : Z) : Z := ((z + 2 ^ 63) mod 2 ^ 64 - 2 ^ 63)%Z.

(** [a != b] on two [predicateInfo] values, negated: all fields equal. *)
Definition predicateInfo_eqb (a b : predicateInfo) : bool :=
  (Table a =? Table b)%string && (Col a =? Col b)%string
  && (PredOp a =? PredOp b)%Z && (Val a =? Val b)%Z.

(** [for i := range l1 { if l1[i] != l2[i] { return false } }] after the
    lengths were found equal. *)
Fixpoint same_at_each_index {A} (eqb : A -> A -> bool) (l1 l2 : list A) : bool :=
  match l1, l2 with
  | x :: l1', y :: l2' => if eqb x y then same_at_each_index eqb l1' l2' else false
  | _, _ => true
  end.

Definition TxQuery_Equals (tx other : TxQuery) : bool :=
  if negb (Op tx =? Op other)%string then false
  else if negb (AffectedTable tx =? AffectedTable other)%string then false
  else if negb (length (UpdatedColumns tx) =? length (UpdatedColumns other))%nat then false
  else if negb (same_at_each_index String.eqb (UpdatedColumns tx) (UpdatedColumns other))
  then false
  else if negb (length (Predicates tx) =? length (Predicates other))%nat then false
  else if negb (same_at_each_index predicateInfo_eqb (Predicates tx) (Predicates other))
  then false
  else true.

Definition TxSignature_Equals (tx other : TxSignature) : bool :=
  if negb (length (Queries tx) =? length (Queries other))%nat then false
  else same_at_each_index TxQuery_Equals (Queries tx) (Queries other).

(** [hash/fnv], the 64-bit FNV-1a state: xor the byte in, multiply by the
    prime, on 64 bits. *)
Definition offset64 : Z := 14695981039346656037.
Definition prime64 : Z := 1099511628211.

Definition sum64a_byte (h : Z) (c : ascii) : Z :=
  ((Z.lxor h (Z.of_N (N_of_ascii c)) * prime64) mod 2 ^ 64)%Z.

Fixpoint sum64a_Write (h : Z) (s : string) : Z :=
  match s with
  | EmptyString => h
  | String c s' => sum64a_Write (sum64a_byte h c) s'
  end.

(** [[]byte{0}] *)
Definition zero_byte : string := String Ascii.zero EmptyString.

Section WithOperators.
(** [sqlparser.ComparisonExprOperator.ToString] *)
Variable ToString : Z -> string.

Definition predicateInfo_String (pi : predicateInfo) : string :=
  let val := if (Val pi =? -1)%Z then "?" else itoa (Val pi) in
  Table pi ++ "." ++ Col pi ++ " " ++ ToString (PredOp pi) ++ " " ++ val.

Definition addToHash (h : Z) (tx : TxQuery) : Z :=
  let h := sum64a_Write h (Op tx) in
  let h := sum64a_Write h zero_byte in
  let h := sum64a_Write h (AffectedTable tx) in
  let h := sum64a_Write h zero_byte in
  let h := fold_left (fun h col => sum64a_Write (sum64a_Write h col) zero_byte)
                     (UpdatedColumns tx) h in
  fold_left (fun h pred => sum64a_Write (sum64a_Write h (predicateInfo_String pred)) zero_byte)
            (Predicates tx) h.

Definition Hash64 (tx : TxSignature) : Z :=
  fold_left addToHash (Queries tx) offset64.

(** [txSignatureMap]: the Go map [data], from hash to bucket. *)
Record txSignatureMap := mkMap { data : Z -> option (list TxSignature) }.

Definition newTxSignatureMap : txSignatureMap := mkMap (fun _ => None).

(** [m.data[hash] = bucket] *)
Definition store (hash : Z) (bucket : list TxSignature) (m : txSignatureMap)
  : txSignatureMap :=
  mkMap (fun h => if (h =? hash)%Z then Some bucket else data m h).

(** The loop of [Add] over the bucket: the first signature equal to [tx]
    gets its count raised; [None] when the loop ends without a match. *)
Fixpoint count_match (tx : TxSignature) (bucket : list TxSignature)
  : option (list TxSignature) :=
  match bucket with
  | [] => None
  | existingTx :: rest =>
      if TxSignature_Equals tx existingTx
      then Some (set_Count (wrap_int (Count existingTx + 1)%Z) existingTx :: rest)
      else match count_match tx rest with
           | Some rest' => Some (existingTx :: rest')
           | None => None
           end
  end.

Definition Add (tx : TxSignature) (m : txSignatureMap) : txSignatureMap :=
  let hash := Hash64 tx in
  match data m hash with
  | None => store hash [set_Count 1 tx] m
  | Some bucket =>
      match count_match tx bucket with
      | Some bucket' => store hash bucket' m
      | None => store hash (bucket ++ [tx]) m
      end
  end.
End WithOperators.

(** [usedValues], the Go map from a value to the number of predicates that
    carry it; a missing key reads as 0.  The count is at most the number of
    predicates, so no wrap-around is written. *)
Definition count_value (used : Z -> Z) (p : predicateInfo) : Z -> Z :=
  fun v => if (v =? Val p)%Z then (used v + 1)%Z else used v.

Definition usedValues (tx : TxSignature) : Z -> Z :=
  fold_left (fun used q => fold_left count_value (Predicates q) used)
            (Queries tx) (fun _ => 0%Z).

(** [newCount] and the Go map [newValues]. *)
Definition renumbering : Type := Z * (Z -> option Z).

(** The body of the inner loop of [CleanUp]. *)
Definition clean_predicate (used : Z -> Z) (st : renumbering) (p : predicateInfo)
  : renumbering * predicateInfo :=
  if (used (Val p) =? 1)%Z then (st, set_Val (-1) p)
  else
    match snd st (Val p) with
    | Some newVal => (st, set_Val newVal p)
    | None =>
        let newVal := fst st in
        (((fst st + 1)%Z, fun v => if (v =? Val p)%Z then Some newVal else snd st v),
         set_Val newVal p)
    end.

Fixpoint clean_predicates (used : Z -> Z) (st : renumbering) (ps : list predicateInfo)
  : renumbering * list predicateInfo :=
  match ps with
  | [] => (st, [])
  | p :: rest =>
      let r := clean_predicate used st p in
      let r' := clean_predicates used (fst r) rest in
      (fst r', snd r :: snd r')
  end.

Fixpoint clean_queries (used : Z -> Z) (st : renumbering) (qs : list TxQuery)
  : renumbering * list TxQuery :=
  match qs with
  | [] => (st, [])
  | q :: rest =>
      let r := clean_predicates used st (Predicates q) in
      let r' := clean_queries used (fst r) rest in
      (fst r', mkTxQuery (Op q) (AffectedTable q) (UpdatedColumns q) (snd r) :: snd r')
  end.

Definition CleanUp (tx : TxSignature) : TxSignature :=
  mkTxSignature (Count tx)
                (snd (clean_queries (usedValues tx) (0%Z, fun _ => None) (Queries tx))).

(** The predicate values of a signature, in the order the loops visit them. *)
Definition values (tx : TxSignature) : list Z :=
  flat_map (fun q => map Val (Predicates q)) (Queries tx).

(** A signature with every predicate value blanked. *)
Definition blank_values (tx : TxSignature) : TxSignature :=
  mkTxSignature (Count tx)
    (map (fun q => mkTxQuery (Op q) (AffectedTable q) (UpdatedColumns q)
                             (map (set_Val 0) (Predicates q)))
         (Queries tx)).

(** How often [v] occurs in [vs]. *)
Definition occurrences (v : Z) (vs : list Z) : nat :=
  length (filter (Z.eqb v) vs).

(** What [Add] keeps of a bucket stored under [hash]. *)
Definition bucket_ok (ToString : Z -> string) (hash : Z) (bucket : list TxSignature) : Prop :=
  bucket <> [] /\
  Forall (fun tx => Hash64 ToString tx = hash) bucket /\
  forall i j a b, nth_error bucket i = Some a -> nth_error bucket j = Some b ->
                  TxSignature_Equals a b = true -> i = j.

Definition map_ok (ToString : Z -> string) (m : txSignatureMap) : Prop :=
  forall hash bucket, data m hash = Some bucket -> bucket_ok ToString hash bucket.

(** An operator printer and signatures for the examples. *)
Definition example_ToString (op : Z) : string :=
  if (op =? 0)%Z then "=" else "<".
Definition example_tx : TxSignature :=
  mkTxSignature 0
    [mkTxQuery "update" "accounts" ["balance"] [mkPredicate "accounts" "id" 0 7];
     mkTxQuery "update" "accounts" ["balance"] [mkPredicate "accounts" "id" 0 9];
     mkTxQuery "insert" "log" [] [mkPredicate "log" "account" 0 7]].
End transactions.

(** ** Sharding keys of a created table *)

Module sqlparser.

Inductive ColumnKeyOption :=
| ColKeyNone | ColKeyPrimary | ColKeySpatialKey | ColKeyFulltextKey
| ColKeyUnique | ColKeyUniqueKey | ColKey.

Inductive IndexType :=
| IndexTypeDefault | IndexTypePrimary | IndexTypeSpatial | IndexTypeFullText | IndexTypeUnique.

(** [*sqlparser.ColumnDefinition], as far as [getShardingKeysForTable] looks
    at it: [Name] and [Type.Options.KeyOpt]. *)
Record ColumnDefinition := mkColumn { Name : string; KeyOpt : ColumnKeyOption }.

(** [*sqlparser.IndexDefinition]: [Info.Name], [Info.Type] and the [Column]
    of each entry of [Columns]. *)
Record IndexDefinition := mkIndex {
  Info_Name : string;
  Info_Type : IndexType;
  IndexColumns : list string
}.

(** [create.TableSpec] *)
Record TableSpec := mkTableSpec {
  Columns : list ColumnDefinition;
  Indexes : list IndexDefinition
}.

Definition is_ColKeyPrimary (k : ColumnKeyOption) : bool :=
  match k with ColKeyPrimary => true | _ => false end.
Definition is_IndexTypePrimary (t : IndexType) : bool :=
  match t with IndexTypePrimary => true | _ => false end.
End sqlparser.

Definition newPrimaryKeyIndexDefinitionSingleColumn (name : string)
  : sqlparser.IndexDefinition :=
  sqlparser.mkIndex "PRIMARY" sqlparser.IndexTypePrimary [name].

(** The first loop of [getShardingKeysForTable]: the columns with their key
    option reset, the indexes with one primary index per inline primary key
    appended, and [allIdCI]. *)
Fixpoint normalize_columns (cols : list sqlparser.ColumnDefinition)
    (indexes : list sqlparser.IndexDefinition) (allIdCI : list string)
  : list sqlparser.ColumnDefinition * list sqlparser.IndexDefinition * list string :=
  match cols with
  | [] => ([], indexes, allIdCI)
  | col :: rest =>
      let primary := sqlparser.is_ColKeyPrimary (sqlparser.KeyOpt col) in
      let indexes' :=
        if primary
        then indexes ++ [newPrimaryKeyIndexDefinitionSingleColumn (sqlparser.Name col)]
        else indexes in
      let col' :=
        if primary then sqlparser.mkColumn (sqlparser.Name col) sqlparser.ColKeyNone
        else col in
      let '(cols', indexes'', all) :=
        normalize_columns rest indexes' (allIdCI ++ [sqlparser.Name col]) in
      (col' :: cols', indexes'', all)
  end.

(** The second loop: the columns of the primary indexes. *)
Fixpoint primary_columns (indexes : list sqlparser.IndexDefinition) (sks : list string)
  : list string :=
  match indexes with
  | [] => sks
  | index :: rest =>
      if sqlparser.is_IndexTypePrimary (sqlparser.Info_Type index)
      then primary_columns rest (sks ++ sqlparser.IndexColumns index)
      else primary_columns rest sks
  end.

(** [getShardingKeysForTable], on [create.TableSpec]: the keys, and the table
    spec as the function leaves it. *)
Definition getShardingKeysForTable (spec : sqlparser.TableSpec)
  : list string * sqlparser.TableSpec :=
  let '(cols, indexes, allIdCI) :=
    normalize_columns (sqlparser.Columns spec) (sqlparser.Indexes spec) [] in
  let sks := primary_columns indexes [] in
  let sks := match sks with [] => allIdCI | _ => sks end in
  (sks, sqlparser.mkTableSpec cols indexes).

(** The names of the columns declared [PRIMARY KEY] inline. *)
Definition inline_primary (cols : list sqlparser.ColumnDefinition) : list string :=
  map sqlparser.Name
      (filter (fun c => sqlparser.is_ColKeyPrimary (sqlparser.KeyOpt c)) cols).

(** The columns of the primary indexes, index by index. *)
Definition indexed_primary (indexes : list sqlparser.IndexDefinition) : list string :=
  flat_map sqlparser.IndexColumns
           (filter (fun i => sqlparser.is_IndexTypePrimary (sqlparser.Info_Type i)) indexes).

(** ** Observations for the further properties *)

(** The keyspace of each table named [name], in the order [findTable] meets
    them. *)
Definition keyspaces_of (name : string) (kss : list (string * list string)) : list string :=
  flat_map (fun ks => map (fun _ => fst ks) (filter (fun tbl => tbl =? name) (snd ks))) kss.

(** The state of the renumbering of [CleanUp] is sound: the numbers given
    out are below [newCount], and no number was given to two values. *)
Definition renumbering_ok (st : transactions.renumbering) : Prop :=
  (0 <= fst st)%Z /\
  (forall v n, snd st v = Some n -> (0 <= n < fst st)%Z) /\
  (forall v1 v2 n, snd st v1 = Some n -> snd st v2 = Some n -> v1 = v2).

Definition renumbering_extends (st st' : transactions.renumbering) : Prop :=
  (fst st <= fst st')%Z /\
  forall v n, snd st v = Some n -> snd st' v = Some n.

(** The value [v'] that [CleanUp] puts in the place of [v], read in the
    final renumbering. *)
Definition renumbered (used : Z -> Z) (st : transactions.renumbering) (v v' : Z) : Prop :=
  if (used v =? 1)%Z then v' = (-1)%Z else snd st v = Some v'.

(** The predicate values of a list of queries. *)
Definition values_of (qs : list transactions.TxQuery) : list Z :=
  flat_map (fun q => map transactions.Val (transactions.Predicates q)) qs.

(** A query with its predicate values blanked. *)
Definition blank_query (q : transactions.TxQuery) : transactions.TxQuery :=
  transactions.mkTxQuery (transactions.Op q) (transactions.AffectedTable q)
    (transactions.UpdatedColumns q)
    (map (transactions.set_Val 0) (transactions.Predicates q)).

(** The keyspaces met before the first one with a name are forgotten: [ks]
    is still empty when the next table is found. *)
Fixpoint drop_unnamed (kss : list string) : list string :=
  match kss with
  | ks :: rest => if ks =? "" then drop_unnamed rest else kss
  | [] => []
  end.

(** The two loops of [findTable], run over the keyspaces of the tables named
    [name] alone: the tables with another name leave [ks] as it is. *)
Fixpoint meet_keyspaces (name : string) (found : list string) (ks : string)
  : error + string :=
  match found with
  | [] => inr ks
  | ksName :: rest =>
      if negb (ks =? "") then inl ("table " ++ name ++ " found in multiple keyspaces")%string
      else meet_keyspaces name rest ksName
  end.

(** A column as the first loop of [getShardingKeysForTable] leaves it. *)
Definition without_inline_key (col : sqlparser.ColumnDefinition) : sqlparser.ColumnDefinition :=
  if sqlparser.is_ColKeyPrimary (sqlparser.KeyOpt col)
  then sqlparser.mkColumn (sqlparser.Name col) sqlparser.ColKeyNone
  else col.

Definition is_waitAuthoritative (e : Event) : bool :=
  match e with EvWaitForAuthoritative _ _ => true | _ => false end.

(** A dispatch with at least one backend in scope. *)
Definition has_backend (e : Event) : bool :=
  match e with
  | EvRunQuery _ _ cfg => cfg_vitess cfg || cfg_mysql cfg
  | _ => true
  end.

(** A runner that leaves the log as it is, but for calls that are not
    dispatches. *)
Definition quiet {R} (runner : QueryRunner R) : Prop :=
  forall q expectErr cfg r w,
    exists evs, hist (res_world (runQuery q expectErr cfg r w)) = hist w ++ evs /\
                filter is_runQuery evs = [].

(** The scopes are exclusive and every dispatch logged so far had a backend
    in scope. *)
Definition backends_ok {R} (t : Tester R) (w : World) : Prop :=
  exclusive (state t) /\ forallb has_backend (hist w) = true.

(** A property of the local state and the world that a computation keeps,
    however it ends. *)
Definition keeps_both {X A} (P : X -> World -> Prop) (m : M X A) : Prop :=
  forall x w, P x w -> P (res_state (m x w)) (res_world (m x w)).

(** The objects of a trace file, with the commas between them. *)
Fixpoint comma_separated (objs : list string) : string :=
  match objs with
  | [] => ""
  | [obj] => obj
  | obj :: rest => obj ++ "," ++ comma_separated rest
  end.

(** A tracer and a file that agree: the file holds [base] and then the
    objects written so far, and the flag tells whether there is one. *)
Definition file_agrees {I} (base : string) (objs : list string) (t : Tracer I) (w : World)
  : Prop :=
  disk w = (base ++ comma_separated objs)%string /\
  alreadyWrittenTraces t = negb (match objs with [] => true | _ => false end).

(** Further examples: a target that refuses every statement, a vschema, a
    table spec, a tester with a pending explain mode and a pending skip. *)
Definition downEnv : Env :=
  mkEnv (fun _ _ _ _ _ => (None, Some "target is down"))
        write_ok
        (fun s => inr (quoted s))
        (fun s => inr s)
        example_Aggregate
        example_Parse
        remove_ok
        (fun _ _ _ => None)
        (fun version _ => (version <=? 80000)%Z)
        example_Atoi
        (fun s => s)
        example_String.

Definition example_vschema : list (string * list string) :=
  [("main", ["accounts"; "log"]); ("archive", ["old_log"])].

Definition example_spec : sqlparser.TableSpec :=
  sqlparser.mkTableSpec
    [sqlparser.mkColumn "id" sqlparser.ColKeyPrimary;
     sqlparser.mkColumn "email" sqlparser.ColKeyUnique]
    [sqlparser.mkIndex "by_email" sqlparser.IndexTypeUnique ["email"]].

Definition explain_and_skip : Tester StubRunner :=
  set_state (set_skip true zeroState) (set_vexplain "all" (NewTester [] stubRunner)).

(** ** Expected outcomes, written out on the world *)

(** The definitions of this part use none of the functions of the tracer and
    of the tester above: they spell out, on the calls and on the file, what
    a run has to look like. *)

(** [w] after the calls [evs]. *)
Definition with_events (w : World) (evs : list Event) : World :=
  mkWorld (hist w ++ evs) (disk w).

(** The double quote and the line feed, by their codes. *)
Definition quote_mark : string := String "034"%char EmptyString.
Definition line_feed : string := String "010"%char EmptyString.

(** An answer of a connection that carries a first cell. *)
Definition has_first_cell (rs : option Result) : Prop :=
  exists r cell row rows, rs = Some r /\ Rows r = (cell :: row) :: rows.

(** The bytes of one trace entry: a comma when asked for, then the object
    with the query, the line number in decimal and the trace. *)
Definition expected_entry (comma : bool) (queryJSON : string) (line : Z) (prettyTrace : string)
  : string :=
  (if comma then "," else "")
    ++ "{" ++ quote_mark ++ "Query" ++ quote_mark ++ ": " ++ queryJSON ++ ", "
    ++ quote_mark ++ "LineNumber" ++ quote_mark ++ ": "
    ++ quote_mark ++ NilZero.string_of_int (Z.to_int line) ++ quote_mark ++ ", "
    ++ quote_mark ++ "Trace" ++ quote_mark ++ ": " ++ prettyTrace ++ "}".

(** One trace capture for [q], exit by exit: the encoding of the query
    fails; the explain-trace statement is sent to the target and fails; its
    answer has no first cell (a panic); the cell does not indent; the flag is
    set and the entry goes to the file, in full or in part. *)
Definition expected_capture {I} (E : Env) (q : data.Query) (t : Tracer I) (w : World)
  : Res (Tracer I) (option error) :=
  match json_Marshal E (data.Query_ q) with
  | inl err => Done (Some err) t w
  | inr queryJSON =>
      let sql := ("vexplain trace " ++ data.Query_ q)%string in
      let sent := with_events w [EvExecuteFetch VtConn sql 10000 false] in
      match execute_fetch E (hist w) VtConn sql 10000 false with
      | (_, Some err) => Done (Some err) t sent
      | (Some (mkResult ((cell :: _) :: _)), None) =>
          match json_Indent E cell with
          | inl err => Done (Some err) t sent
          | inr prettyTrace =>
              let entry :=
                expected_entry (alreadyWrittenTraces t) queryJSON (data.Line q) prettyTrace in
              let marked := mkTracer (traceFile t) (inner t) true in
              match traceFile t with
              | None => Done (Some "invalid argument") marked sent
              | Some _ =>
                  match file_write E (hist sent) entry with
                  | None =>
                      Done None marked
                           (mkWorld (hist sent ++ [EvWrite entry]) (disk sent ++ entry))
                  | Some (n, err) =>
                      Done (Some err) marked
                           (mkWorld (hist sent ++ [EvWrite entry])
                                    (disk sent ++ substring 0 n entry))
                  end
              end
          end
      | (_, None) => Panic t sent
      end
  end.

(** The errors of the two attempts of the run-once branch, in the order
    they were made. *)
Definition both_errors (traceErr mysqlErr : option error) : list error :=
  match traceErr, mysqlErr with
  | Some e1, Some e2 => [e1; e2]
  | Some e1, None => [e1]
  | None, Some e2 => [e2]
  | None, None => []
  end.

(** The configuration a query is dispatched with, from the mode state the
    directive found. *)
Definition dispatch_cfg (ast : Statement) (st : testerState) : QueryRunConfig :=
  mkCfg ast (negb (mysqlOnly st)) (negb (vitessOnly st)) (reference st).

(** The calls of the explain step of a query directive that finds the
    explain mode [mode] pending in the world [w]: none when there is no mode;
    else the statement on the target, the report of its error if it has one,
    and the first cell as info if there is one. *)
Definition explain_events (E : Env) (q : data.Query) (mode : string) (w : World)
  : list Event :=
  if mode =? "" then []
  else
    let sql := ("vexplain " ++ mode ++ " " ++ data.Query_ q)%string in
    EvExecuteFetch VtConn sql (-1) false
      :: match execute_fetch E (hist w) VtConn sql (-1) false with
         | (rs, err) =>
             match err with Some e => [EvAddFailure e] | None => [] end
               ++ match rs with
                  | Some (mkResult ((cell :: _) :: _)) =>
                      [EvAddInfo ("VExplain Output:" ++ line_feed ++ " " ++ cell ++ line_feed)]
                  | _ => []
                  end
         end.

(** The message of a wait that failed. *)
Definition wait_failure (tblName : string) (e : error) : error :=
  ("failed to wait for authoritative schema for table " ++ tblName ++ ": " ++ e)%string.

(** Further examples: a target that answers with no rows, and a tester with
    an explain mode pending. *)
Definition noRowsEnv : Env :=
  mkEnv (fun _ _ _ _ _ => (Some (mkResult []), None))
        write_ok
        (fun s => inr (quoted s))
        (fun s => inr s)
        example_Aggregate
        example_Parse
        remove_ok
        (fun _ _ _ => None)
        (fun version _ => (version <=? 80000)%Z)
        example_Atoi
        (fun s => s)
        example_String.

Definition explain_pending : Tester StubRunner :=
  set_vexplain "all" (NewTester [] stubRunner).

(** * Properties *)

(** ** Strings *)

Lemma append_empty_r (s : string) : (s ++ "")%string = s.
Proof. induction s as [| c s IH]; cbn; [reflexivity | rewrite IH; reflexivity]. Qed.

Lemma substring_0_0 (s : string) : substring 0 0 s = "".
Proof. destruct s; reflexivity. Qed.

Lemma string_app_assoc (a b c : string) : ((a ++ b) ++ c)%string = (a ++ b ++ c)%string.
Proof. induction a as [| x a IH]; cbn; [reflexivity | rewrite IH; reflexivity]. Qed.

(** ** Worlds *)

Lemma log_with_events (e : Event) (w : World) : log e w = with_events w [e].
Proof. reflexivity. Qed.

Lemma with_events_app (w : World) (l1 l2 : list Event) :
  with_events (with_events w l1) l2 = with_events w (l1 ++ l2).
Proof. unfold with_events. cbn. rewrite app_assoc. reflexivity. Qed.

Lemma with_events_nil (w : World) : with_events w [] = w.
Proof. destruct w as [h d]. unfold with_events. cbn. rewrite app_nil_r. reflexivity. Qed.

Lemma trace_entry_expected (already : bool) (queryJSON : string) (line : Z)
    (prettyTrace : string) :
  trace_entry already queryJSON line prettyTrace
  = expected_entry already queryJSON line prettyTrace.
Proof.
  unfold trace_entry, expected_entry, json_object, entry_head, itoa.
  change dquote with quote_mark.
  rewrite !string_app_assoc. reflexivity.
Qed.

(** ** The mode state *)

Section ModeState.

Lemma eqb_empty_false (s : string) : s <> "" -> (s =? "") = false.
Proof. intro H. apply String.eqb_neq. exact H. Qed.

(** C9.  [skipNext] returns the state as it was when [vitessOnly],
    [mysqlOnly] or [reference] is set, and otherwise changes the field
    [skip] alone, to true; [referenceNext] returns the state as it was when
    [vitessOnly], [mysqlOnly] or [skip] is set, and otherwise changes the
    field [reference] alone, to true. *)
Theorem skipNext_referenceNext_frame (st : testerState) :
  (if vitessOnly st || mysqlOnly st || reference st
   then skipNext st = st
   else skipNext st =
        mkState true (skipBinary st) (skipVersion st)
                (vitessOnly st) (mysqlOnly st) (reference st))
  /\
  (if vitessOnly st || mysqlOnly st || skip st
   then referenceNext st = st
   else referenceNext st =
        mkState (skip st) (skipBinary st) (skipVersion st)
                (vitessOnly st) (mysqlOnly st) true).
Proof.
  unfold skipNext, referenceNext. split.
  - destruct (vitessOnly st || mysqlOnly st || reference st); reflexivity.
  - destruct (vitessOnly st || mysqlOnly st || skip st); reflexivity.
Qed.

(** C8.  A begin of an only-scope that is open, a begin while the other
    scope is open and an end of a scope that is not open each return an
    error and the state they were given; and whenever one of the four
    operations returns an error, the state it returns is the one it was
    given. *)
Theorem scope_errors_leave_state (st : testerState) :
  (vitessOnly st = true \/ mysqlOnly st = true ->
     exists msg, beginVitessOnly st = (Some msg, st)) /\
  (vitessOnly st = false ->
     exists msg, endVitessOnly st = (Some msg, st)) /\
  (mysqlOnly st = true \/ vitessOnly st = true ->
     exists msg, beginMySQLOnly st = (Some msg, st)) /\
  (mysqlOnly st = false ->
     exists msg, endMySQLOnly st = (Some msg, st)) /\
  (forall op, In op [beginVitessOnly; endVitessOnly; beginMySQLOnly; endMySQLOnly] ->
     forall msg st', op st = (Some msg, st') -> st' = st).
Proof.
  repeat split.
  - unfold beginVitessOnly. intros [H | H].
    + rewrite H. eexists. reflexivity.
    + rewrite H. destruct (vitessOnly st); eexists; reflexivity.
  - unfold endVitessOnly. intros H. rewrite H. eexists. reflexivity.
  - unfold beginMySQLOnly. intros [H | H].
    + rewrite H. eexists. reflexivity.
    + rewrite H. destruct (mysqlOnly st); eexists; reflexivity.
  - unfold endMySQLOnly. intros H. rewrite H. eexists. reflexivity.
  - intros op Hop msg st' Hret. simpl in Hop.
    destruct Hop as [<- | [<- | [<- | [<- | []]]]];
      [ unfold beginVitessOnly in Hret
      | unfold endVitessOnly in Hret
      | unfold beginMySQLOnly in Hret
      | unfold endMySQLOnly in Hret ];
      destruct (vitessOnly st), (mysqlOnly st); simpl in Hret; congruence.
Qed.

(** C5.  [shouldSkip] looks at [skip] first: when set it is cleared and the
    answer is true.  Otherwise, when a gate is recorded ([skipBinary] not
    empty), the gate is cleared and the answer is the negation of the
    oracle's answer for the recorded version and binary; whatever the oracle
    said, the next evaluation finds no gate and answers false.  With
    neither flag set the answer is false and the state is kept. *)
Theorem shouldSkip_spec (atLeast : Z -> string -> bool) (st : testerState) :
  (skip st = true ->
     shouldSkip atLeast st = (true, set_skip false st)) /\
  (skip st = false -> skipBinary st <> "" ->
     shouldSkip atLeast st =
       (negb (atLeast (skipVersion st) (skipBinary st)), set_skipBinary "" st) /\
     forall atLeast',
       shouldSkip atLeast' (snd (shouldSkip atLeast st)) =
         (false, snd (shouldSkip atLeast st))) /\
  (skip st = false -> skipBinary st = "" ->
     shouldSkip atLeast st = (false, st)).
Proof.
  unfold shouldSkip. split; [| split].
  - intros ->. reflexivity.
  - intros Hskip Hgate. rewrite Hskip, (eqb_empty_false _ Hgate). split.
    + reflexivity.
    + intros atLeast'. simpl. rewrite Hskip. reflexivity.
  - intros -> ->. reflexivity.
Qed.

End ModeState.

Lemma scope_errors_leave_state_witness :
  (exists msg, beginVitessOnly scope_open_vitess = (Some msg, scope_open_vitess)) /\
  (exists msg, beginMySQLOnly scope_open_vitess = (Some msg, scope_open_vitess)) /\
  (exists msg, endMySQLOnly scope_open_vitess = (Some msg, scope_open_vitess)) /\
  (exists msg, endVitessOnly zeroState = (Some msg, zeroState)).
Proof.
  pose proof (scope_errors_leave_state scope_open_vitess) as [Hbv [_ [Hbm [Hem _]]]].
  pose proof (scope_errors_leave_state zeroState) as [_ [Hev _]].
  split; [| split; [| split]].
  - apply Hbv. left. reflexivity.
  - apply Hbm. right. reflexivity.
  - apply Hem. reflexivity.
  - apply Hev. reflexivity.
Defined.

Lemma shouldSkip_spec_witness :
  shouldSkip (fun v _ => (v <=? 50700)%Z) gate_state = (true, set_skipBinary "" gate_state) /\
  shouldSkip (fun v _ => (v <=? 90000)%Z) gate_state = (false, set_skipBinary "" gate_state) /\
  shouldSkip (fun _ _ => true) (set_skip true gate_state) = (true, gate_state) /\
  shouldSkip (fun _ _ => false) zeroState = (false, zeroState).
Proof.
  split; [| split; [| split]].
  - apply (proj1 (proj2 (shouldSkip_spec (fun v _ => (v <=? 50700)%Z) gate_state)));
      [reflexivity | discriminate].
  - apply (proj1 (proj2 (shouldSkip_spec (fun v _ => (v <=? 90000)%Z) gate_state)));
      [reflexivity | discriminate].
  - apply (proj1 (shouldSkip_spec (fun _ _ => true) (set_skip true gate_state))).
    reflexivity.
  - apply (proj2 (proj2 (shouldSkip_spec (fun _ _ => false) zeroState))); reflexivity.
Defined.

(** ** The trace recorder *)

Section TraceRecorder.
Variable E : Env.
Context {I : Type} {innerRunner : QueryRunner I}.

(** [trace], one outcome per exit of the Go function. *)
Lemma Tracer_trace_cases (q : data.Query) (t : Tracer I) (w : World) :
  Tracer_trace E q t w =
  match json_Marshal E (data.Query_ q) with
  | inl err => Done (Some err) t w
  | inr queryJSON =>
      let r := execute_fetch E (hist w) VtConn (trace_sql q) 10000 false in
      let w1 := log (EvExecuteFetch VtConn (trace_sql q) 10000 false) w in
      match snd r with
      | Some err => Done (Some err) t w1
      | None =>
          match first_cell (fst r) with
          | None => Panic t w1
          | Some cell =>
              match json_Indent E cell with
              | inl err => Done (Some err) t w1
              | inr prettyTrace =>
                  let entry :=
                    trace_entry (alreadyWrittenTraces t) queryJSON (data.Line q) prettyTrace in
                  let t1 := set_alreadyWrittenTraces true t in
                  match traceFile t with
                  | None => Done (Some ErrInvalid) t1 w1
                  | Some _ =>
                      match file_write E (hist w1) entry with
                      | None => Done None t1 (wrote entry entry w1)
                      | Some (n, err) =>
                          Done (Some err) t1 (wrote entry (substring 0 n entry) w1)
                      end
                  end
              end
          end
      end
  end.
Proof.
  unfold Tracer_trace, trace_sql.
  destruct (json_Marshal E (data.Query_ q)) as [err | queryJSON]; [reflexivity |].
  unfold bind, ExecuteFetch. cbn zeta.
  destruct (execute_fetch E (hist w) VtConn _ 10000 false) as [rs [err |]]; cbn [snd fst];
    [reflexivity |].
  unfold first_cell_or_panic.
  destruct (first_cell rs) as [cell |]; [| reflexivity].
  unfold ret. destruct (json_Indent E cell) as [err | prettyTrace]; [reflexivity |].
  unfold get, modify, Write. destruct (traceFile t) as [f |]; [| reflexivity].
  cbn. destruct (file_write E _ _) as [[n err] |]; reflexivity.
Qed.

(** A trace that returns nil has sent the explain-trace statement to the
    target, taken the first cell, indented it and appended the entry, with
    a comma in front when [alreadyWrittenTraces] was set. *)
Lemma Tracer_trace_success (q : data.Query) (t t' : Tracer I) (w w' : World) :
  Tracer_trace E q t w = Done None t' w' ->
  exists queryJSON cell prettyTrace,
    json_Marshal E (data.Query_ q) = inr queryJSON /\
    first_cell (fst (execute_fetch E (hist w) VtConn (trace_sql q) 10000 false)) = Some cell /\
    json_Indent E cell = inr prettyTrace /\
    let entry := trace_entry (alreadyWrittenTraces t) queryJSON (data.Line q) prettyTrace in
    t' = set_alreadyWrittenTraces true t /\
    hist w' = hist w ++ [EvExecuteFetch VtConn (trace_sql q) 10000 false; EvWrite entry] /\
    disk w' = (disk w ++ entry)%string.
Proof.
  rewrite Tracer_trace_cases.
  destruct (json_Marshal E (data.Query_ q)) as [err | queryJSON] eqn:HM; [discriminate |].
  cbn zeta.
  destruct (execute_fetch E (hist w) VtConn (trace_sql q) 10000 false) as [rs [err |]];
    cbn [snd fst]; [discriminate |].
  destruct (first_cell rs) as [cell |] eqn:HC; [| discriminate].
  destruct (json_Indent E cell) as [err | prettyTrace] eqn:HI; [discriminate |].
  destruct (traceFile t) as [f |]; [| discriminate].
  destruct (file_write E _ _) as [[n err] |]; [discriminate |].
  intros H. injection H as <- <-.
  exists queryJSON, cell, prettyTrace. cbn.
  rewrite <- app_assoc. auto 10.
Qed.

(** Whatever way [trace] ends, its calls were the explain-trace statement
    on the target, or that and one write; the inner runner is untouched. *)
Lemma Tracer_trace_calls (q : data.Query) (t : Tracer I) (w : World) (queryJSON : string) :
  json_Marshal E (data.Query_ q) = inr queryJSON ->
  exists evs,
    hist (res_world (Tracer_trace E q t w)) = hist w ++ evs /\
    filter is_exec evs = [EvExecuteFetch VtConn (trace_sql q) 10000 false] /\
    filter is_runQuery evs = [] /\
    inner (res_state (Tracer_trace E q t w)) = inner t.
Proof.
  intros HM. rewrite Tracer_trace_cases, HM. cbn zeta.
  destruct (execute_fetch E (hist w) VtConn (trace_sql q) 10000 false) as [rs [err |]];
    cbn [snd fst].
  { eexists [_]. cbn. repeat split; reflexivity. }
  destruct (first_cell rs) as [cell |].
  2:{ eexists [_]. cbn. repeat split; reflexivity. }
  destruct (json_Indent E cell) as [err | prettyTrace].
  { eexists [_]. cbn. repeat split; reflexivity. }
  destruct (traceFile t) as [f |].
  2:{ eexists [_]. cbn. repeat split; reflexivity. }
  destruct (file_write E _ _) as [[n err] |];
    eexists [_; _]; cbn; rewrite <- app_assoc; repeat split; reflexivity.
Qed.

(** With a usable answer to the explain-trace statement, [trace] returns. *)
Lemma Tracer_trace_returns (q : data.Query) (t : Tracer I) (w : World) :
  usable (execute_fetch E (hist w) VtConn (trace_sql q) 10000 false) = true ->
  exists err t1 w1, Tracer_trace E q t w = Done err t1 w1.
Proof.
  intros HU. rewrite Tracer_trace_cases.
  destruct (json_Marshal E (data.Query_ q)) as [err | queryJSON]; [eauto |].
  cbn zeta. unfold usable in HU.
  destruct (execute_fetch E (hist w) VtConn (trace_sql q) 10000 false) as [rs [err |]];
    cbn [snd fst] in *; [eauto |].
  destruct (first_cell rs) as [cell |]; [| discriminate].
  destruct (json_Indent E cell) as [err | prettyTrace]; [eauto |].
  destruct (traceFile t) as [f |]; [| eauto].
  destruct (file_write E _ _) as [[n err] |]; eauto.
Qed.

(** [trace] is the capture written out above. *)
Lemma Tracer_trace_expected (q : data.Query) (t : Tracer I) (w : World) :
  Tracer_trace E q t w = expected_capture E q t w.
Proof.
  rewrite Tracer_trace_cases. unfold expected_capture, trace_sql.
  destruct (json_Marshal E (data.Query_ q)) as [err | queryJSON]; [reflexivity |].
  cbn zeta. rewrite log_with_events.
  destruct (execute_fetch E (hist w) VtConn _ 10000 false) as [rs [err |]]; cbn [snd fst].
  { destruct rs as [[[| [| cell row] rows]] |]; reflexivity. }
  destruct rs as [[[| [| cell row] rows]] |]; cbn [first_cell Rows]; try reflexivity.
  destruct (json_Indent E cell) as [err | prettyTrace]; [reflexivity |].
  rewrite trace_entry_expected. unfold set_alreadyWrittenTraces, wrote, ErrInvalid.
  cbn zeta. destruct (traceFile t) as [f |]; [| reflexivity].
  destruct (file_write E _ _) as [[n err] |]; reflexivity.
Qed.

Lemma has_first_cell_usable (rs : option Result) (err : option error) :
  (err = None -> has_first_cell rs) -> usable (rs, err) = true.
Proof.
  intros H. unfold usable. cbn [fst snd]. destruct err as [e |]; [reflexivity |].
  destruct (H eq_refl) as (r & cell & row & rows & -> & Hrows).
  cbn. rewrite Hrows. reflexivity.
Qed.

(** The calls of [trace] when the encoding of the query text may fail:
    then nothing was sent. *)
Lemma Tracer_trace_calls_any (q : data.Query) (t : Tracer I) (w : World) :
  exists evs,
    hist (res_world (Tracer_trace E q t w)) = hist w ++ evs /\
    filter is_exec evs =
      match json_Marshal E (data.Query_ q) with
      | inr _ => [EvExecuteFetch VtConn ("vexplain trace " ++ data.Query_ q) 10000 false]
      | inl _ => []
      end /\
    filter is_runQuery evs = [] /\
    inner (res_state (Tracer_trace E q t w)) = inner t.
Proof.
  destruct (json_Marshal E (data.Query_ q)) as [err | queryJSON] eqn:HM.
  - exists []. rewrite Tracer_trace_cases, HM. cbn. rewrite app_nil_r. auto.
  - exact (Tracer_trace_calls q t w queryJSON HM).
Qed.

(** C1.  A data-modifying statement, dispatched with a trace file open, not
    expected to fail and with the target in scope.  When the target answers
    the explain-trace statement with an error or with a first cell, the
    tracer makes one capture and, iff the reference is in scope, one
    [ExecuteFetch] of the statement on the reference connection.  The calls
    on the two connections are exactly those: the explain-trace statement
    once on the target (not at all when the query text does not encode as
    JSON), the statement once on the reference iff [cfg.mysql].  The inner
    runner is not called, and the value returned is [Aggregate] of the list
    made of the error of the capture, if it has one, and the error of the
    reference, if it has one.  When the target answers without an error and
    without a first cell, the branch panics after its call on the target:
    the reference is not run and nothing is returned. *)
Theorem dml_traced_runs_once (q : data.Query) (cfg : QueryRunConfig)
    (t : Tracer I) (w : World) :
  IsDMLStatement (cfg_ast cfg) = true ->
  traceFile t <> None ->
  cfg_vitess cfg = true ->
  let sql := ("vexplain trace " ++ data.Query_ q)%string in
  let answer := execute_fetch E (hist w) VtConn sql 10000 false in
  ((snd answer = None -> has_first_cell (fst answer)) ->
   exists traceErr t1 w1 w' evs,
     expected_capture E q t w = Done traceErr t1 w1 /\
     let mysqlErr :=
       if cfg_mysql cfg
       then snd (execute_fetch E (hist w1) MySQLConn (data.Query_ q) 10000 false)
       else None in
     Tracer_runQuery E q false cfg t w =
       Done (Aggregate E (both_errors traceErr mysqlErr)) t1 w' /\
     disk w' = disk w1 /\
     hist w' = hist w1
                 ++ (if cfg_mysql cfg
                     then [EvExecuteFetch MySQLConn (data.Query_ q) 10000 false]
                     else []) /\
     hist w' = hist w ++ evs /\
     filter is_exec evs =
       (match json_Marshal E (data.Query_ q) with
        | inr _ => [EvExecuteFetch VtConn sql 10000 false]
        | inl _ => []
        end)
       ++ (if cfg_mysql cfg
           then [EvExecuteFetch MySQLConn (data.Query_ q) 10000 false]
           else []) /\
     filter is_runQuery evs = [] /\
     inner t1 = inner t) /\
  (forall queryJSON,
     json_Marshal E (data.Query_ q) = inr queryJSON ->
     snd answer = None ->
     ~ has_first_cell (fst answer) ->
     Tracer_runQuery E q false cfg t w =
       Panic t (with_events w [EvExecuteFetch VtConn sql 10000 false])).
Proof.
  intros Hdml Hfile Hvt. cbv zeta.
  assert (Hguard : runs_dml_once t false cfg = true).
  { unfold runs_dml_once. rewrite Hdml, Hvt.
    destruct (traceFile t); [reflexivity | congruence]. }
  split.
  - intros Hcell.
    assert (HU : usable (execute_fetch E (hist w) VtConn (trace_sql q) 10000 false) = true).
    { unfold trace_sql.
      destruct (execute_fetch E (hist w) VtConn _ 10000 false) as [rs err] eqn:Hx.
      apply has_first_cell_usable. exact Hcell. }
    destruct (Tracer_trace_returns q t w HU) as (traceErr & t1 & w1 & Htrace).
    destruct (Tracer_trace_calls_any q t w) as (evs & Hhist & Hexec & Hrun & Hinner).
    rewrite Htrace in Hhist, Hinner. cbn [res_world res_state] in Hhist, Hinner.
    destruct (cfg_mysql cfg) eqn:Hmysql.
    + exists traceErr, t1, w1,
        (log (EvExecuteFetch MySQLConn (data.Query_ q) 10000 false) w1),
        (evs ++ [EvExecuteFetch MySQLConn (data.Query_ q) 10000 false]).
      split; [rewrite <- Tracer_trace_expected; exact Htrace |].
      split.
      { unfold Tracer_runQuery, bind, get. rewrite Hguard, Htrace, Hmysql.
        unfold ExecuteFetch, ret. cbn [snd].
        destruct traceErr as [e1 |];
          destruct (snd (execute_fetch E (hist w1) MySQLConn (data.Query_ q) 10000 false))
            as [e2 |]; reflexivity. }
      split; [reflexivity |]. split; [reflexivity |].
      split; [cbn; rewrite Hhist, app_assoc; reflexivity |].
      rewrite !filter_app, Hexec, Hrun. cbn. auto.
    + exists traceErr, t1, w1, w1, evs.
      split; [rewrite <- Tracer_trace_expected; exact Htrace |].
      split.
      { unfold Tracer_runQuery, bind, get. rewrite Hguard, Htrace, Hmysql.
        unfold ret. destruct traceErr as [e1 |]; reflexivity. }
      split; [reflexivity |]. split; [rewrite app_nil_r; reflexivity |].
      rewrite app_nil_r. auto.
  - intros queryJSON HM Herr Hnone.
    unfold Tracer_runQuery, bind, get. rewrite Hguard, Tracer_trace_expected.
    unfold expected_capture. rewrite HM. cbv zeta.
    destruct (execute_fetch E (hist w) VtConn _ 10000 false) as [rs err].
    cbn [fst snd] in Herr, Hnone. subst err.
    destruct rs as [[[| [| cell row] rows]] |]; try reflexivity.
    exfalso. apply Hnone. exists (mkResult ((cell :: row) :: rows)), cell, row, rows.
    split; reflexivity.
Qed.

(** C7.  When the guard of the run-once branch is false, the tracer first
    calls the inner runner, in the world as it is but for the record of that
    call.  A panic or an error of the inner runner is the tracer's own
    outcome, in the world the inner runner left.  When the inner runner
    returned nil, a capture follows iff the target is in scope and the
    statement is a select or a DML: the explain-trace statement goes to the
    target and the entry to the file, exit by exit as [expected_capture]
    writes it out; otherwise nil is returned, with the tracer's flag and the
    world as the inner runner left them: no call, no write. *)
Theorem tracer_delegates_then_traces (q : data.Query) (expectErr : bool)
    (cfg : QueryRunConfig) (t : Tracer I) (w : World) :
  runs_dml_once t expectErr cfg = false ->
  match runQuery q expectErr cfg (inner t) (with_events w [EvRunQuery q expectErr cfg]) with
  | Done None i1 w1 =>
      Tracer_runQuery E q expectErr cfg t w =
        if cfg_vitess cfg && (isSelectStatement (cfg_ast cfg) || IsDMLStatement (cfg_ast cfg))
        then expected_capture E q (mkTracer (traceFile t) i1 (alreadyWrittenTraces t)) w1
        else Done None (mkTracer (traceFile t) i1 (alreadyWrittenTraces t)) w1
  | Done (Some err) i1 w1 =>
      Tracer_runQuery E q expectErr cfg t w =
        Done (Some err) (mkTracer (traceFile t) i1 (alreadyWrittenTraces t)) w1
  | Panic i1 w1 =>
      Tracer_runQuery E q expectErr cfg t w =
        Panic (mkTracer (traceFile t) i1 (alreadyWrittenTraces t)) w1
  end.
Proof.
  intros Hguard.
  unfold Tracer_runQuery, inner_runQuery, traces_after, bind, get, emit, zoom, ret.
  rewrite Hguard. rewrite log_with_events.
  destruct (runQuery q expectErr cfg (inner t) (with_events w [EvRunQuery q expectErr cfg]))
    as [[err |] i1 w1 | i1 w1]; try reflexivity.
  destruct (cfg_vitess cfg && _); [| reflexivity].
  apply Tracer_trace_expected.
Qed.

(** C10.  When [trace] gets as far as the write and the write fails, the
    error is returned with [alreadyWrittenTraces] set, and only the bytes
    the failed write let through are in the file (none when it wrote
    nothing); a later [trace] that succeeds from that tracer puts a comma
    in front of its object. *)
Theorem flag_set_before_failed_write (q : data.Query) (t : Tracer I) (w : World)
    (f : File) (rs : option Result) (queryJSON cell prettyTrace : string)
    (n : nat) (err : error) :
  let w1 := log (EvExecuteFetch VtConn (trace_sql q) 10000 false) w in
  let entry := trace_entry (alreadyWrittenTraces t) queryJSON (data.Line q) prettyTrace in
  traceFile t = Some f ->
  json_Marshal E (data.Query_ q) = inr queryJSON ->
  execute_fetch E (hist w) VtConn (trace_sql q) 10000 false = (rs, None) ->
  first_cell rs = Some cell ->
  json_Indent E cell = inr prettyTrace ->
  file_write E (hist w1) entry = Some (n, err) ->
  exists t' w',
    Tracer_trace E q t w = Done (Some err) t' w' /\
    alreadyWrittenTraces t' = true /\
    disk w' = (disk w ++ substring 0 n entry)%string /\
    (n = 0%nat -> disk w' = disk w) /\
    forall q2 w2 t2 w3,
      Tracer_trace E q2 t' w2 = Done None t2 w3 ->
      exists queryJSON2 prettyTrace2,
        disk w3 =
          (disk w2 ++ "," ++ json_object queryJSON2 (data.Line q2) prettyTrace2)%string.
Proof.
  intros w1 entry Hf HM HX HC HI HW.
  exists (set_alreadyWrittenTraces true t), (wrote entry (substring 0 n entry) w1).
  split.
  { rewrite Tracer_trace_cases, HM. cbn zeta. rewrite HX. cbn [snd fst].
    rewrite HC, HI, Hf. fold w1. fold entry. rewrite HW. reflexivity. }
  split; [reflexivity |].
  split; [reflexivity |].
  split.
  { intros ->. cbn [wrote disk]. rewrite substring_0_0. apply append_empty_r. }
  intros q2 w2 t2 w3 H2.
  destruct (Tracer_trace_success _ _ _ _ _ H2)
    as (queryJSON2 & cell2 & prettyTrace2 & _ & _ & _ & _ & _ & Hdisk).
  exists queryJSON2, prettyTrace2. exact Hdisk.
Qed.

End TraceRecorder.

Lemma dml_traced_runs_once_witness :
  exists a t' w',
    Tracer_runQuery goodEnv insert1 false insert_cfg tracer0 opened = Done a t' w'.
Proof.
  assert (Hfile : traceFile tracer0 <> None) by discriminate.
  pose proof (dml_traced_runs_once goodEnv insert1 insert_cfg tracer0 opened
                eq_refl Hfile eq_refl) as H.
  cbv zeta in H. destruct H as [H _].
  destruct H as (traceErr & t1 & w1 & w' & evs & _ & H & _).
  - intros _. exists (mkResult [["{}"]]), "{}", [], []. split; reflexivity.
  - eexists _, _, _. exact H.
Defined.

(** C1, as stated, fails: the statement is a DML, the trace file is open, no
    error is expected and both backends are in scope, but the target answers
    the explain-trace statement with no rows.  The capture panics after its
    call on the target; the reference is never run and no error is
    returned. *)
Lemma no_rows_no_reference_run :
  Tracer_runQuery noRowsEnv insert1 false insert_cfg tracer0 opened
  = Panic tracer0
          (mkWorld [EvExecuteFetch VtConn "vexplain trace insert into t values (1)" 10000 false]
                   "[").
Proof. vm_compute. reflexivity. Qed.

Lemma tracer_delegates_then_traces_witness :
  Tracer_runQuery goodEnv select2 false select_cfg tracer0 opened =
  expected_capture goodEnv select2 tracer0
    (with_events opened [EvRunQuery select2 false select_cfg]).
Proof.
  exact (tracer_delegates_then_traces goodEnv select2 false select_cfg tracer0 opened eq_refl).
Defined.

Lemma flag_set_before_failed_write_witness :
  exists t' w',
    Tracer_trace diskFullEnv insert1 tracer0 opened
      = Done (Some "no space left on device") t' w' /\
    alreadyWrittenTraces t' = true /\
    disk w' = "[".
Proof.
  pose proof (flag_set_before_failed_write diskFullEnv insert1 tracer0 opened
                (osFile "trace.json") (Some (mkResult [["{}"]]))
                (quoted (data.Query_ insert1)) "{}" "{}" 0 "no space left on device"
                eq_refl eq_refl eq_refl eq_refl eq_refl eq_refl) as H.
  destruct H as (t' & w' & Hret & Hflag & _ & Hdisk & _).
  exists t', w'. split; [exact Hret |]. split; [exact Hflag |].
  apply Hdisk. reflexivity.
Defined.

(** C6.  The first capture finds the disk full: its write fails with no byte
    written, so the file still holds the opening bracket alone.  The second
    capture succeeds, and its object goes to the file with a comma in front,
    though no entry was written before it. *)
Theorem comma_without_earlier_entry :
  exists t1 w1 t2 w2,
    Tracer_trace diskFullEnv insert1 tracer0 opened
      = Done (Some "no space left on device") t1 w1 /\
    disk w1 = "[" /\
    Tracer_trace diskFullEnv select2 t1 w1 = Done None t2 w2 /\
    disk w2 = ("[" ++ "," ++ json_object (quoted "select 2") 2 "{}")%string.
Proof.
  eexists _, _, _, _.
  split; [vm_compute; reflexivity |].
  split; [reflexivity |].
  split; [vm_compute; reflexivity |].
  vm_compute. reflexivity.
Qed.

(** ** Computations that keep a property, computations that return *)

Section Combinators.
Context {X : Type}.
Variable P : X -> Prop.

Lemma keeps_ret {A} (a : A) : keeps P (ret a).
Proof. intros x w Hx. exact Hx. Qed.

Lemma keeps_panic {A} : keeps P (@panic X A).
Proof. intros x w Hx. exact Hx. Qed.

Lemma keeps_emit (e : Event) : keeps P (emit e).
Proof. intros x w Hx. exact Hx. Qed.

Lemma keeps_get : keeps P get.
Proof. intros x w Hx. exact Hx. Qed.

Lemma keeps_modify (f : X -> X) : (forall x, P x -> P (f x)) -> keeps P (modify f).
Proof. intros Hf x w Hx. apply Hf, Hx. Qed.

Lemma keeps_bind {A B} (m : M X A) (k : A -> M X B) :
  keeps P m -> (forall a, keeps P (k a)) -> keeps P (bind m k).
Proof.
  intros Hm Hk x w Hx. unfold bind.
  specialize (Hm x w Hx).
  destruct (m x w) as [a x' w' | x' w']; cbn in Hm.
  - apply Hk, Hm.
  - exact Hm.
Qed.

Lemma keeps_zoom {Y A} (gety : X -> Y) (sety : Y -> X -> X) (m : M Y A) :
  (forall y x, P x -> P (sety y x)) -> keeps P (zoom gety sety m).
Proof.
  intros Hset x w Hx. unfold zoom.
  destruct (m (gety x) w); cbn; apply Hset, Hx.
Qed.

Lemma keeps_ExecuteFetch E c sql maxrows wantfields :
  keeps P (ExecuteFetch E c sql maxrows wantfields).
Proof. intros x w Hx. exact Hx. Qed.

Lemma keeps_Remove E name : keeps P (Remove E name).
Proof. intros x w Hx. exact Hx. Qed.

Lemma keeps_WaitForAuthoritative E ks tbl : keeps P (utils_WaitForAuthoritative E ks tbl).
Proof. intros x w Hx. exact Hx. Qed.

Lemma keeps_first_cell rs : keeps P (first_cell_or_panic rs).
Proof. intros x w Hx. unfold first_cell_or_panic. destruct (first_cell rs); exact Hx. Qed.
End Combinators.

Lemma returns_ret {X A} (a : A) : always_returns (@ret X A a).
Proof. intros x w. exists a, x, w. reflexivity. Qed.

Lemma returns_emit {X} (e : Event) : always_returns (@emit X e).
Proof. intros x w. eexists _, _, _. reflexivity. Qed.

Lemma returns_bind {X A B} (m : M X A) (k : A -> M X B) :
  always_returns m -> (forall a, always_returns (k a)) -> always_returns (bind m k).
Proof.
  intros Hm Hk x w. unfold bind.
  destruct (Hm x w) as (a & x' & w' & ->). apply Hk.
Qed.

Lemma returns_zoom {X Y A} (gety : X -> Y) (sety : Y -> X -> X) (m : M Y A) :
  always_returns m -> always_returns (zoom gety sety m).
Proof.
  intros Hm x w. unfold zoom.
  destruct (Hm (gety x) w) as (a & y' & w' & ->). eexists _, _, _. reflexivity.
Qed.

Create HintDb keeps.
#[local] Hint Resolve keeps_ret keeps_panic keeps_emit keeps_get keeps_ExecuteFetch
  keeps_Remove keeps_WaitForAuthoritative keeps_first_cell : keeps.

(** ** The run loop *)

Section RunLoop.
Variable E : Env.
Context {R : Type} {runner : QueryRunner R}.

(** The scope flags under the operations that do not open or close a scope. *)
Lemma skipNext_scopes (st : testerState) :
  vitessOnly (skipNext st) = vitessOnly st /\ mysqlOnly (skipNext st) = mysqlOnly st.
Proof. unfold skipNext. destruct (_ || _); split; reflexivity. Qed.

Lemma referenceNext_scopes (st : testerState) :
  vitessOnly (referenceNext st) = vitessOnly st /\
  mysqlOnly (referenceNext st) = mysqlOnly st.
Proof. unfold referenceNext. destruct (_ || _); split; reflexivity. Qed.

Lemma shouldSkip_scopes atLeast (st : testerState) :
  vitessOnly (snd (shouldSkip atLeast st)) = vitessOnly st /\
  mysqlOnly (snd (shouldSkip atLeast st)) = mysqlOnly st.
Proof.
  unfold shouldSkip. destruct (skip st); [split; reflexivity |].
  destruct (negb _); split; reflexivity.
Qed.

Lemma shouldReference_scopes (st : testerState) :
  vitessOnly (snd (shouldReference st)) = vitessOnly st /\
  mysqlOnly (snd (shouldReference st)) = mysqlOnly st.
Proof. unfold shouldReference. destruct (reference st); split; reflexivity. Qed.

(** The four scope operations keep the two scopes exclusive. *)
Lemma beginVitessOnly_exclusive st : exclusive st -> exclusive (snd (beginVitessOnly st)).
Proof.
  unfold exclusive, beginVitessOnly.
  destruct (vitessOnly st) eqn:Hv, (mysqlOnly st) eqn:Hm; cbn; rewrite ?Hv, ?Hm; auto.
Qed.

Lemma endVitessOnly_exclusive st : exclusive st -> exclusive (snd (endVitessOnly st)).
Proof.
  unfold exclusive, endVitessOnly.
  destruct (vitessOnly st) eqn:Hv, (mysqlOnly st) eqn:Hm; cbn; rewrite ?Hv, ?Hm; auto.
Qed.

Lemma beginMySQLOnly_exclusive st : exclusive st -> exclusive (snd (beginMySQLOnly st)).
Proof.
  unfold exclusive, beginMySQLOnly.
  destruct (vitessOnly st) eqn:Hv, (mysqlOnly st) eqn:Hm; cbn; rewrite ?Hv, ?Hm; auto.
Qed.

Lemma endMySQLOnly_exclusive st : exclusive st -> exclusive (snd (endMySQLOnly st)).
Proof.
  unfold exclusive, endMySQLOnly.
  destruct (vitessOnly st) eqn:Hv, (mysqlOnly st) eqn:Hm; cbn; rewrite ?Hv, ?Hm; auto.
Qed.

Lemma vitessOrMySQLOnly_exclusive query begin end_ st :
  (forall s, exclusive s -> exclusive (snd (begin s))) ->
  (forall s, exclusive s -> exclusive (snd (end_ s))) ->
  exclusive st -> exclusive (snd (vitessOrMySQLOnly query begin end_ st)).
Proof.
  intros Hb He Hst. unfold vitessOrMySQLOnly.
  destruct (negb _); [exact Hst |].
  destruct (idx _ 1 =? "begin"); [apply Hb, Hst |].
  destruct (idx _ 1 =? "end"); [apply He, Hst | exact Hst].
Qed.

Lemma keeps_on_state {A} (f : testerState -> A * testerState) :
  (forall st, exclusive st -> exclusive (snd (f st))) ->
  keeps (@scopes_ok R) (on_state f).
Proof. intros Hf t w Ht. cbn. apply Hf, Ht. Qed.

Lemma keeps_update_state (f : testerState -> testerState) :
  (forall st, exclusive st -> exclusive (f st)) ->
  keeps (@scopes_ok R) (update_state f).
Proof. intros Hf t w Ht. cbn. apply Hf, Ht. Qed.

Lemma exclusive_same_scopes (st st' : testerState) :
  vitessOnly st' = vitessOnly st /\ mysqlOnly st' = mysqlOnly st ->
  exclusive st -> exclusive st'.
Proof. unfold exclusive. intros [-> ->] H. exact H. Qed.

Lemma keeps_AddFailure err : keeps (@scopes_ok R) (AddFailure err).
Proof. apply keeps_emit. Qed.

Lemma keeps_Tester_runQuery q : keeps (@scopes_ok R) (Tester_runQuery E q).
Proof.
  unfold Tester_runQuery, qr_runQuery, AddTestCase, EndTestCase, AddFailure.
  apply keeps_bind.
  { apply keeps_on_state. intros st. apply exclusive_same_scopes, shouldSkip_scopes. }
  intros [|]; [apply keeps_ret |].
  apply keeps_bind; [apply keeps_emit |]. intros _.
  destruct (Parse E (data.Query_ q)) as [err | ast]; [apply keeps_emit |].
  apply keeps_bind; [apply keeps_get |]. intros t.
  apply keeps_bind.
  { apply keeps_on_state. intros st. apply exclusive_same_scopes, shouldReference_scopes. }
  intros ref.
  apply keeps_bind.
  { apply keeps_bind; [apply keeps_emit |]. intros _.
    apply keeps_zoom. intros r x H. exact H. }
  intros err.
  apply keeps_bind; [destruct err; [apply keeps_emit | apply keeps_ret] |]. intros _.
  apply keeps_bind; [apply keeps_emit |]. intros _.
  apply keeps_modify. intros x H. exact H.
Qed.

Lemma keeps_wait_for ks tbl : keeps (@scopes_ok R) (wait_for E ks tbl).
Proof.
  unfold wait_for. apply keeps_bind; [auto with keeps |].
  intros [e |]; [apply keeps_emit | apply keeps_ret].
Qed.

Lemma keeps_waitAuthoritative query : keeps (@scopes_ok R) (waitAuthoritative E query).
Proof.
  unfold waitAuthoritative.
  destruct (length (Split query space)) as [| [| [| [| n]]]].
  1, 2, 5: apply keeps_bind; [apply keeps_emit | intros _; apply keeps_wait_for].
  - apply keeps_bind; [apply keeps_get |]. intros t.
    destruct (findTable _ _); [apply keeps_emit | apply keeps_wait_for].
  - apply keeps_wait_for.
Qed.

Lemma keeps_run_vexplain q : keeps (@scopes_ok R) (run_vexplain E q).
Proof.
  unfold run_vexplain, AddFailure, AddInfo.
  apply keeps_bind; [apply keeps_get |]. intros t.
  apply keeps_bind; [auto with keeps |]. intros r.
  apply keeps_bind; [apply keeps_modify; intros ? H; exact H |]. intros _.
  apply keeps_bind; [destruct (snd r); auto with keeps |]. intros _.
  apply keeps_bind; auto with keeps.
Qed.

Lemma keeps_Run_step q : keeps (@scopes_ok R) (Run_step E q).
Proof.
  unfold Run_step, report_if_error, AddFailure.
  destruct (data.Type_ q).
  - (* Query *)
    apply keeps_bind; [apply keeps_get |]. intros t.
    apply keeps_bind; [destruct (negb _); [apply keeps_run_vexplain | apply keeps_ret] |].
    intros _. apply keeps_bind; [apply keeps_Tester_runQuery | intros; apply keeps_ret].
  - (* Error *)
    apply keeps_bind; [apply keeps_modify; intros ? H; exact H | intros; apply keeps_ret].
  - (* Skip *)
    apply keeps_bind; [| intros; apply keeps_ret].
    apply keeps_update_state. intros st. apply exclusive_same_scopes, skipNext_scopes.
  - apply keeps_bind; [apply keeps_emit | intros; apply keeps_ret].
  - apply keeps_bind; [apply keeps_emit | intros; apply keeps_ret].
  - apply keeps_bind; [apply keeps_emit | intros; apply keeps_ret].
  - apply keeps_bind; [apply keeps_emit | intros; apply keeps_ret].
  - (* SkipIfBelowVersion *)
    destruct (negb _).
    { apply keeps_bind; [apply keeps_emit | intros; apply keeps_ret]. }
    destruct (Atoi E _) as [err | v].
    { apply keeps_bind; [apply keeps_emit | intros; apply keeps_ret]. }
    apply keeps_bind; [| intros; apply keeps_ret].
    apply keeps_update_state. intros st H. exact H.
  - (* VExplain *)
    destruct (negb _).
    { apply keeps_bind; [apply keeps_emit | intros; apply keeps_ret]. }
    apply keeps_bind; [apply keeps_modify; intros ? H; exact H | intros; apply keeps_ret].
  - (* WaitForAuthoritative *)
    apply keeps_bind; [apply keeps_waitAuthoritative | intros; apply keeps_ret].
  - (* RemoveFile *)
    apply keeps_bind; [apply keeps_Remove |].
    intros [e |]; apply keeps_ret.
  - (* VitessOnly *)
    apply keeps_bind.
    { apply keeps_on_state. intros st.
      apply vitessOrMySQLOnly_exclusive;
        [apply beginVitessOnly_exclusive | apply endVitessOnly_exclusive]. }
    intros [e |]; (apply keeps_bind; [first [apply keeps_emit | apply keeps_ret]
                                     | intros; apply keeps_ret]).
  - (* MysqlOnly *)
    apply keeps_bind.
    { apply keeps_on_state. intros st.
      apply vitessOrMySQLOnly_exclusive;
        [apply beginMySQLOnly_exclusive | apply endMySQLOnly_exclusive]. }
    intros [e |]; (apply keeps_bind; [first [apply keeps_emit | apply keeps_ret]
                                     | intros; apply keeps_ret]).
  - (* Reference *)
    apply keeps_bind; [| intros; apply keeps_ret].
    apply keeps_update_state. intros st. apply exclusive_same_scopes, referenceNext_scopes.
Qed.

Lemma keeps_Run_loop qs : keeps (@scopes_ok R) (Run_loop E qs).
Proof.
  induction qs as [| q rest IH]; cbn [Run_loop].
  - apply keeps_ret.
  - apply keeps_bind; [apply keeps_Run_step |].
    intros [err |]; [apply keeps_ret | exact IH].
Qed.

(** The loop over a stream passes through the loop over each of its
    prefixes. *)
Lemma Run_loop_app (prefix rest : list data.Query) (t : Tester R) (w : World) :
  Run_loop E (prefix ++ rest) t w =
  match Run_loop E prefix t w with
  | Done None t' w' => Run_loop E rest t' w'
  | other => other
  end.
Proof.
  revert t w. induction prefix as [| q prefix IH]; intros t w; cbn [Run_loop app].
  - reflexivity.
  - unfold bind. destruct (Run_step E q t w) as [[err |] t' w' | t' w']; try reflexivity.
    apply IH.
Qed.

(** C2.  From a new tester, whatever directives the loop has gone through
    and however it stopped (end of the list, return, panic), [vitessOnly]
    and [mysqlOnly] are not both true. *)
Theorem only_scopes_never_both (qs : list data.Query)
    (vs : list (string * list string)) (qr0 : R) (w : World) :
  let t := res_state (Run_loop E qs (NewTester vs qr0) w) in
  vitessOnly (state t) && mysqlOnly (state t) = false.
Proof.
  cbv zeta. apply (keeps_Run_loop qs (NewTester vs qr0) w). reflexivity.
Qed.

End RunLoop.

(** ** Query directives and the errors of a directive *)

Lemma set_state_same {R} (t : Tester R) : set_state (state t) t = t.
Proof. destruct t; reflexivity. Qed.

Lemma set_vexplain_same {R} (t : Tester R) : vexplain t = "" -> set_vexplain "" t = t.
Proof. destruct t; cbn. intros ->. reflexivity. Qed.

Lemma shouldSkip_reference atLeast (st : testerState) :
  reference (snd (shouldSkip atLeast st)) = reference st.
Proof.
  unfold shouldSkip. destruct (skip st); [reflexivity |].
  destruct (negb _); reflexivity.
Qed.

Lemma shouldReference_fst (st : testerState) : fst (shouldReference st) = reference st.
Proof. unfold shouldReference. destruct (reference st); reflexivity. Qed.

Section Directives.
Variable E : Env.
Context {R : Type} {runner : QueryRunner R}.

(** [Tester.runQuery], one outcome per exit of the Go function. *)
Lemma Tester_runQuery_cases (q : data.Query) (t : Tester R) (w : World) :
  Tester_runQuery E q t w =
  let s := shouldSkip (BinaryIsAtLeastAtVersion E) (state t) in
  let t1 := set_state (snd s) t in
  if fst s then Done tt t1 w
  else
    let w1 := log (EvAddTestCase (data.Query_ q) (data.Line q)) w in
    match Parse E (data.Query_ q) with
    | inl err => Done tt t1 (log (EvAddFailure err) w1)
    | inr ast =>
        let rf := shouldReference (state t1) in
        let t2 := set_state (snd rf) t1 in
        let cfg := mkCfg ast (negb (mysqlOnly (state t1))) (negb (vitessOnly (state t1)))
                         (fst rf) in
        match runQuery q (expectedErrs t1) cfg (qr t2)
                       (log (EvRunQuery q (expectedErrs t1) cfg) w1) with
        | Panic r w2 => Panic (set_qr r t2) w2
        | Done err r w2 =>
            Done tt (set_expectedErrs false (set_qr r t2))
                 (log EvEndTestCase
                      (match err with
                       | Some e => log (EvAddFailure e) w2
                       | None => w2
                       end))
        end
    end.
Proof.
  unfold Tester_runQuery, bind, on_state. cbn zeta.
  destruct (fst (shouldSkip (BinaryIsAtLeastAtVersion E) (state t))); [reflexivity |].
  unfold AddTestCase, emit.
  destruct (Parse E (data.Query_ q)) as [err | ast]; [reflexivity |].
  unfold get, qr_runQuery, bind, emit, zoom. cbn [state expectedErrs set_state qr fst snd].
  destruct (runQuery _ _ _ _ _) as [[e |] r w2 | r w2]; reflexivity.
Qed.

(** A query that is skipped: nothing is reported, no field but the mode
    state changes. *)
Lemma Tester_runQuery_skipped (q : data.Query) (t : Tester R) (w : World) :
  fst (shouldSkip (BinaryIsAtLeastAtVersion E) (state t)) = true ->
  exists t', Tester_runQuery E q t w = Done tt t' w /\
             expectedErrs t' = expectedErrs t.
Proof.
  intros Hskip. rewrite Tester_runQuery_cases. cbn zeta. rewrite Hskip.
  eexists. split; reflexivity.
Qed.

(** A query that is not skipped and does not parse: the test case is opened
    and the parse error reported. *)
Lemma Tester_runQuery_unparsed (q : data.Query) (t : Tester R) (w : World) (err : error) :
  fst (shouldSkip (BinaryIsAtLeastAtVersion E) (state t)) = false ->
  Parse E (data.Query_ q) = inl err ->
  exists t',
    Tester_runQuery E q t w =
      Done tt t' (with_events w [EvAddTestCase (data.Query_ q) (data.Line q);
                                 EvAddFailure err]) /\
    expectedErrs t' = expectedErrs t.
Proof.
  intros Hskip Hparse. rewrite Tester_runQuery_cases. cbn zeta.
  rewrite Hskip, Hparse. rewrite !log_with_events, with_events_app.
  eexists. split; reflexivity.
Qed.

(** A query that is not skipped and parses: the runner is called with the
    configuration of the mode state the directive found, and when that call
    has returned its error is reported, the test case closed and
    [expectedErrs] reset. *)
Lemma Tester_runQuery_dispatched (q : data.Query) (t : Tester R) (w : World)
    (ast : Statement) (a : option error) (r' : R) (w2 : World) :
  fst (shouldSkip (BinaryIsAtLeastAtVersion E) (state t)) = false ->
  Parse E (data.Query_ q) = inr ast ->
  runQuery q (expectedErrs t) (dispatch_cfg ast (state t)) (qr t)
           (with_events w [EvAddTestCase (data.Query_ q) (data.Line q);
                           EvRunQuery q (expectedErrs t) (dispatch_cfg ast (state t))])
    = Done a r' w2 ->
  exists t',
    Tester_runQuery E q t w =
      Done tt t' (with_events w2 match a with
                                 | Some e => [EvAddFailure e; EvEndTestCase]
                                 | None => [EvEndTestCase]
                                 end) /\
    expectedErrs t' = false.
Proof.
  intros Hskip Hparse Hrun. rewrite Tester_runQuery_cases. cbn zeta.
  rewrite Hskip, Hparse. cbn [state expectedErrs set_state qr].
  destruct (shouldSkip_scopes (BinaryIsAtLeastAtVersion E) (state t)) as [-> ->].
  rewrite shouldReference_fst, shouldSkip_reference.
  change (mkCfg ast (negb (mysqlOnly (state t))) (negb (vitessOnly (state t)))
                (reference (state t)))
    with (dispatch_cfg ast (state t)).
  rewrite !log_with_events, with_events_app. cbn [app]. rewrite Hrun.
  eexists. split.
  - destruct a as [e |]; rewrite ?log_with_events, ?with_events_app; reflexivity.
  - reflexivity.
Qed.

(** C3.  A query directive that is skipped leaves [expectedErrs] as it
    was, and so does one that is not skipped and does not parse.  A query
    directive that is not skipped and parses is handed to the runner, and
    once that call of the runner has returned, with an error or without,
    [expectedErrs] is false. *)
Theorem expectedErrs_reset_after_dispatch (q : data.Query) (t : Tester R) (w : World) :
  (fst (shouldSkip (BinaryIsAtLeastAtVersion E) (state t)) = true ->
     exists t', Tester_runQuery E q t w = Done tt t' w /\
                expectedErrs t' = expectedErrs t) /\
  (fst (shouldSkip (BinaryIsAtLeastAtVersion E) (state t)) = false ->
   forall err, Parse E (data.Query_ q) = inl err ->
     exists t' w', Tester_runQuery E q t w = Done tt t' w' /\
                   expectedErrs t' = expectedErrs t) /\
  (fst (shouldSkip (BinaryIsAtLeastAtVersion E) (state t)) = false ->
   forall ast, Parse E (data.Query_ q) = inr ast ->
   forall a r' w2,
     runQuery q (expectedErrs t) (dispatch_cfg ast (state t)) (qr t)
              (with_events w [EvAddTestCase (data.Query_ q) (data.Line q);
                              EvRunQuery q (expectedErrs t) (dispatch_cfg ast (state t))])
       = Done a r' w2 ->
     exists t' w', Tester_runQuery E q t w = Done tt t' w' /\
                   expectedErrs t' = false).
Proof.
  split; [apply Tester_runQuery_skipped |].
  split.
  - intros Hskip err Hparse.
    destruct (Tester_runQuery_unparsed q t w err Hskip Hparse) as (t' & Hrun & Hflag).
    exists t'. eexists. split; [exact Hrun | exact Hflag].
  - intros Hskip ast Hparse a r' w2 Hcall.
    destruct (Tester_runQuery_dispatched q t w ast a r' w2 Hskip Hparse Hcall)
      as (t' & Hrun & Hflag).
    exists t'. eexists. split; [exact Hrun | exact Hflag].
Qed.

End Directives.

Lemma expectedErrs_reset_after_dispatch_witness :
  exists t' w',
    Tester_runQuery goodEnv select2 (set_expectedErrs true (NewTester [] stubRunner)) emptyWorld
      = Done tt t' w' /\
    expectedErrs t' = false.
Proof.
  apply (proj2 (proj2 (expectedErrs_reset_after_dispatch goodEnv select2
                         (set_expectedErrs true (NewTester [] stubRunner)) emptyWorld))
               eq_refl SelectStmt eq_refl None stubRunner
               (mkWorld [EvAddTestCase "select 2" 2;
                         EvRunQuery select2 true (mkCfg SelectStmt true true false)] "")
               eq_refl).
Defined.

(** C3, as stated, fails: after [--error] and [--skip] the query directive is
    skipped, the loop runs to its end, and [expectedErrs] is still true. *)
Lemma expectedErrs_kept_by_skipped_query :
  Run_loop goodEnv skipped_stream (NewTester [] stubRunner) emptyWorld
    = Done None (set_expectedErrs true (NewTester [] stubRunner)) emptyWorld /\
  expectedErrs
    (res_state (Run_loop goodEnv skipped_stream (NewTester [] stubRunner) emptyWorld))
    = true.
Proof. split; vm_compute; reflexivity. Qed.

Lemma returns_get {X} : always_returns (@get X).
Proof. intros x w. eexists _, _, _. reflexivity. Qed.

Lemma returns_modify {X} (f : X -> X) : always_returns (modify f).
Proof. intros x w. eexists _, _, _. reflexivity. Qed.

Lemma returns_on_state {R A} (f : testerState -> A * testerState) :
  always_returns (@on_state R A f).
Proof. intros x w. eexists _, _, _. reflexivity. Qed.

Lemma returns_WaitForAuthoritative {X} E ks tbl :
  always_returns (@utils_WaitForAuthoritative E X ks tbl).
Proof. intros x w. eexists _, _, _. reflexivity. Qed.

(** A step that ends in [ret None] after a computation that returns. *)
Lemma then_goes_on {X A} (m : M X A) (x : X) (w : World) :
  always_returns m -> exists x' w', (m ;; ret (@None error)) x w = Done None x' w'.
Proof.
  intros Hm. unfold bind. destruct (Hm x w) as (a & x' & w' & ->).
  exists x', w'. reflexivity.
Qed.

(** An error of a scope directive comes with the state it was given. *)
Lemma vitessOrMySQLOnly_error_state (query : string)
    (begin end_ : testerState -> option error * testerState) (st st' : testerState) (e : error) :
  (forall s e' s', begin s = (Some e', s') -> s' = s) ->
  (forall s e' s', end_ s = (Some e', s') -> s' = s) ->
  vitessOrMySQLOnly query begin end_ st = (Some e, st') -> st' = st.
Proof.
  intros Hb He. unfold vitessOrMySQLOnly.
  destruct (negb _); [congruence |].
  destruct (idx _ 1 =? "begin"); [apply Hb |].
  destruct (idx _ 1 =? "end"); [apply He | congruence].
Qed.

Lemma scope_op_error_state (op : testerState -> option error * testerState) :
  In op [beginVitessOnly; endVitessOnly; beginMySQLOnly; endMySQLOnly] ->
  forall s e s', op s = (Some e, s') -> s' = s.
Proof.
  intros Hop s e s' Hret. simpl in Hop.
  destruct Hop as [<- | [<- | [<- | [<- | []]]]];
    [ unfold beginVitessOnly in Hret
    | unfold endVitessOnly in Hret
    | unfold beginMySQLOnly in Hret
    | unfold endMySQLOnly in Hret ];
    destruct (vitessOnly s), (mysqlOnly s); simpl in Hret; congruence.
Qed.

Section DirectiveErrors.
Variable E : Env.
Context {R : Type} {runner : QueryRunner R}.

Lemma returns_wait_for ks tbl : always_returns (wait_for (R := R) E ks tbl).
Proof.
  unfold wait_for. apply returns_bind; [apply returns_WaitForAuthoritative |].
  intros [e |]; [apply returns_emit | apply returns_ret].
Qed.

Lemma returns_waitAuthoritative query : always_returns (waitAuthoritative (R := R) E query).
Proof.
  unfold waitAuthoritative.
  destruct (length (Split query space)) as [| [| [| [| n]]]].
  1, 2, 5: apply returns_bind; [apply returns_emit | intros _; apply returns_wait_for].
  - apply returns_bind; [apply returns_get |]. intros t.
    destruct (findTable _ _); [apply returns_emit | apply returns_wait_for].
  - apply returns_wait_for.
Qed.

(** Every directive but a query and [RemoveFile] ends its iteration without
    leaving [Run]: the runner is not called, nothing can panic. *)
Lemma control_step_goes_on (q : data.Query) (t : Tester R) (w : World) :
  data.Type_ q <> typ.RemoveFile ->
  data.Type_ q <> typ.Query ->
  exists t' w', Run_step E q t w = Done None t' w'.
Proof.
  intros Hkind Hquery. unfold Run_step.
  destruct (data.Type_ q) eqn:Hty; try congruence.
  - apply then_goes_on, returns_modify.
  - apply then_goes_on, returns_modify.
  - apply then_goes_on, returns_emit.
  - apply then_goes_on, returns_emit.
  - apply then_goes_on, returns_emit.
  - apply then_goes_on, returns_emit.
  - destruct (negb _); [apply then_goes_on, returns_emit |].
    destruct (Atoi E _); [apply then_goes_on, returns_emit |].
    apply then_goes_on, returns_modify.
  - destruct (negb _); [apply then_goes_on, returns_emit |].
    apply then_goes_on, returns_modify.
  - apply then_goes_on, returns_waitAuthoritative.
  - apply (then_goes_on (err <- on_state _ ;; report_if_error err)).
    apply returns_bind; [apply returns_on_state |].
    intros [e |]; [apply returns_emit | apply returns_ret].
  - apply (then_goes_on (err <- on_state _ ;; report_if_error err)).
    apply returns_bind; [apply returns_on_state |].
    intros [e |]; [apply returns_emit | apply returns_ret].
  - apply then_goes_on, returns_modify.
Qed.

(** The explain step when the answer has a first cell: the statement went to
    the target, its error, if any, to the reporter, the cell to the reporter
    as info, and the mode is no longer pending. *)
Lemma run_vexplain_expected (q : data.Query) (t : Tester R) (w : World) :
  vexplain t <> "" ->
  has_first_cell
    (fst (execute_fetch E (hist w) VtConn
                        ("vexplain " ++ vexplain t ++ " " ++ data.Query_ q) (-1) false)) ->
  run_vexplain E q t w =
    Done tt (set_vexplain "" t) (with_events w (explain_events E q (vexplain t) w)).
Proof.
  intros Hmode Hcell.
  unfold run_vexplain, explain_events, bind, get, ExecuteFetch, modify.
  rewrite (proj2 (String.eqb_neq _ _) Hmode).
  destruct (execute_fetch E (hist w) VtConn _ (-1) false) as [rs err]. cbn [fst snd] in *.
  destruct Hcell as (r & cell & row & rows & -> & Hrows).
  destruct r as [rws]. cbn [Rows] in Hrows. subst rws.
  unfold first_cell_or_panic, AddFailure, AddInfo, emit, ret, log, with_events.
  destruct err as [e |]; cbn; rewrite <- ?app_assoc; reflexivity.
Qed.

(** The iteration of a query directive: the explain step if a mode is
    pending, then [Tester.runQuery]. *)
Lemma Run_step_Query (q : data.Query) (t : Tester R) (w : World) :
  data.Type_ q = typ.Query ->
  (vexplain t <> "" ->
   has_first_cell
     (fst (execute_fetch E (hist w) VtConn
                         ("vexplain " ++ vexplain t ++ " " ++ data.Query_ q) (-1) false))) ->
  Run_step E q t w =
    (Tester_runQuery E q ;; ret None)
      (set_vexplain "" t) (with_events w (explain_events E q (vexplain t) w)).
Proof.
  intros Hty Hcell. unfold Run_step. rewrite Hty. unfold bind at 1. unfold get.
  destruct (vexplain t =? "") eqn:Hv; cbn [negb].
  - unfold explain_events. rewrite Hv. apply String.eqb_eq in Hv.
    rewrite with_events_nil, (set_vexplain_same t Hv). reflexivity.
  - apply String.eqb_neq in Hv. unfold bind at 1.
    rewrite (run_vexplain_expected q t w Hv (Hcell Hv)). reflexivity.
Qed.

(** [wait_for]: the wait, and the report of its error if it has one. *)
Lemma wait_for_expected (ks tbl : string) (t : Tester R) (w : World) :
  wait_for E ks tbl t w =
    Done tt t
         (with_events w
            (EvWaitForAuthoritative ks tbl
               :: match WaitForAuthoritative E (hist w) ks tbl with
                  | Some e => [EvAddFailure (wait_failure tbl e)]
                  | None => []
                  end)).
Proof.
  unfold wait_for, bind, utils_WaitForAuthoritative.
  destruct (WaitForAuthoritative E (hist w) ks tbl) as [e |].
  - unfold AddFailure, emit. rewrite !log_with_events, with_events_app. reflexivity.
  - reflexivity.
Qed.

End DirectiveErrors.

Section ReportedErrors.
Variable E : Env.
Context {R : Type} {runner : QueryRunner R}.

(** C4.  Every directive but a query and [RemoveFile] ends its iteration
    with the loop going on, whatever the runner does.  So does a query
    directive, once its explain call, if a mode is pending, has given a
    first cell, and, if the query is dispatched, once that call of the runner
    has returned.  The errors of a directive go to [Reporter.AddFailure]: a
    wrong field count or number of [SkipIfBelowVersion], a wrong field count
    of [VExplain], the error of a scope directive, a directive kind that is
    not supported, the errors of [waitAuthoritative] (table not found, wrong
    field count, failed wait), the error of the explain call, a parse error
    and a runner error of a query.  A failed removal of a [RemoveFile]
    directive is not reported: the iteration returns from [Run] with the
    error wrapped, and the loop handles no directive after it. *)
Theorem directive_errors_reported_loop_goes_on
    (q : data.Query) (t : Tester R) (w : World) :
  let text := data.Query_ q in
  let strs := Split text space in
  (data.Type_ q <> typ.RemoveFile -> data.Type_ q <> typ.Query ->
   exists t' w', Run_step E q t w = Done None t' w') /\
  (data.Type_ q = typ.SkipIfBelowVersion -> length strs <> 3%nat ->
     Run_step E q t w =
       Done None t
            (log (EvAddFailure ("incorrect syntax for typ.Q_SKIP_IF_BELOW_VERSION in: "
                                  ++ text)%string) w)) /\
  (data.Type_ q = typ.SkipIfBelowVersion -> length strs = 3%nat ->
     forall err, Atoi E (idx strs 2) = inl err ->
     Run_step E q t w = Done None t (log (EvAddFailure err) w)) /\
  (data.Type_ q = typ.VExplain -> length strs <> 2%nat ->
     Run_step E q t w =
       Done None t
            (log (EvAddFailure ("incorrect syntax for typ.VExplain in: " ++ text)%string) w)) /\
  (data.Type_ q = typ.VitessOnly ->
     forall e st',
       vitessOrMySQLOnly text beginVitessOnly endVitessOnly (state t) = (Some e, st') ->
       Run_step E q t w = Done None t (log (EvAddFailure e) w)) /\
  (data.Type_ q = typ.MysqlOnly ->
     forall e st',
       vitessOrMySQLOnly text beginMySQLOnly endMySQLOnly (state t) = (Some e, st') ->
       Run_step E q t w = Done None t (log (EvAddFailure e) w)) /\
  (In (data.Type_ q) [typ.Unknown; typ.Comment; typ.CommentWithCommand; typ.EmptyLine] ->
     Run_step E q t w =
       Done None t
            (log (EvAddFailure (CmdType_String E (data.Type_ q) ++ " not supported")%string) w)) /\
  (data.Type_ q = typ.WaitForAuthoritative -> length strs = 2%nat ->
     forall err, findTable (vschema t) (idx strs 1) = inl err ->
     Run_step E q t w = Done None t (log (EvAddFailure err) w)) /\
  (data.Type_ q = typ.WaitForAuthoritative -> length strs = 2%nat ->
     forall ks, findTable (vschema t) (idx strs 1) = inr ks ->
     forall e, WaitForAuthoritative E (hist w) ks (idx strs 1) = Some e ->
     Run_step E q t w =
       Done None t
            (with_events w [EvWaitForAuthoritative ks (idx strs 1);
                            EvAddFailure (wait_failure (idx strs 1) e)])) /\
  (data.Type_ q = typ.WaitForAuthoritative -> length strs = 3%nat ->
     forall e, WaitForAuthoritative E (hist w) (idx strs 2) (idx strs 1) = Some e ->
     Run_step E q t w =
       Done None t
            (with_events w [EvWaitForAuthoritative (idx strs 2) (idx strs 1);
                            EvAddFailure (wait_failure (idx strs 1) e)])) /\
  (data.Type_ q = typ.WaitForAuthoritative -> length strs <> 2%nat -> length strs <> 3%nat ->
     let arity :=
       EvAddFailure ("expected table name and keyspace for wait_authoritative in: "
                       ++ text)%string in
     Run_step E q t w =
       Done None t
            (with_events w
               (arity :: EvWaitForAuthoritative "" ""
                  :: match WaitForAuthoritative E (hist w ++ [arity]) "" "" with
                     | Some e => [EvAddFailure (wait_failure "" e)]
                     | None => []
                     end))) /\
  (data.Type_ q = typ.Query ->
   (vexplain t <> "" ->
    has_first_cell
      (fst (execute_fetch E (hist w) VtConn
                          ("vexplain " ++ vexplain t ++ " " ++ text) (-1) false))) ->
   let entered := with_events w (explain_events E q (vexplain t) w) in
   (fst (shouldSkip (BinaryIsAtLeastAtVersion E) (state t)) = true ->
      exists t', Run_step E q t w = Done None t' entered) /\
   (fst (shouldSkip (BinaryIsAtLeastAtVersion E) (state t)) = false ->
    forall err, Parse E text = inl err ->
      exists t',
        Run_step E q t w =
          Done None t'
               (with_events entered [EvAddTestCase text (data.Line q); EvAddFailure err])) /\
   (fst (shouldSkip (BinaryIsAtLeastAtVersion E) (state t)) = false ->
    forall ast, Parse E text = inr ast ->
    forall a r' w2,
      runQuery q (expectedErrs t) (dispatch_cfg ast (state t)) (qr t)
               (with_events entered
                  [EvAddTestCase text (data.Line q);
                   EvRunQuery q (expectedErrs t) (dispatch_cfg ast (state t))])
        = Done a r' w2 ->
      exists t',
        Run_step E q t w =
          Done None t'
               (with_events w2 match a with
                               | Some e => [EvAddFailure e; EvEndTestCase]
                               | None => [EvEndTestCase]
                               end))) /\
  (data.Type_ q = typ.RemoveFile ->
     let removed := log (EvRemove (TrimSpace E text)) w in
     match os_Remove E (hist w) (TrimSpace E text) with
     | Some e =>
         forall rest,
           Run_loop E (q :: rest) t w =
             Done (Some ("failed to remove file: " ++ e)%string) t removed
     | None => Run_step E q t w = Done None t removed
     end).
Proof.
  cbv zeta.
  split; [apply control_step_goes_on |].
  split.
  { intros Hty Hlen. unfold Run_step. rewrite Hty.
    apply Nat.eqb_neq in Hlen. rewrite Hlen. reflexivity. }
  split.
  { intros Hty Hlen err Hatoi. unfold Run_step. rewrite Hty, Hlen, Hatoi. reflexivity. }
  split.
  { intros Hty Hlen. unfold Run_step. rewrite Hty.
    apply Nat.eqb_neq in Hlen. rewrite Hlen. reflexivity. }
  split.
  { intros Hty e st' Hop. unfold Run_step. rewrite Hty.
    unfold bind, on_state. rewrite Hop. cbn.
    assert (st' = state t) as ->.
    { eapply vitessOrMySQLOnly_error_state; [| | exact Hop];
        apply scope_op_error_state; simpl; auto. }
    rewrite set_state_same. reflexivity. }
  split.
  { intros Hty e st' Hop. unfold Run_step. rewrite Hty.
    unfold bind, on_state. rewrite Hop. cbn.
    assert (st' = state t) as ->.
    { eapply vitessOrMySQLOnly_error_state; [| | exact Hop];
        apply scope_op_error_state; simpl; auto. }
    rewrite set_state_same. reflexivity. }
  split.
  { intros Hin. unfold Run_step. simpl in Hin.
    destruct Hin as [<- | [<- | [<- | [<- | []]]]]; reflexivity. }
  split.
  { intros Hty Hlen err Hfind. unfold Run_step. rewrite Hty.
    unfold waitAuthoritative. rewrite Hlen. unfold bind, get. rewrite Hfind. reflexivity. }
  split.
  { intros Hty Hlen ks Hfind e Hwait. unfold Run_step. rewrite Hty.
    unfold waitAuthoritative. rewrite Hlen. unfold bind at 1 2. unfold get. rewrite Hfind.
    rewrite wait_for_expected, Hwait. reflexivity. }
  split.
  { intros Hty Hlen e Hwait. unfold Run_step. rewrite Hty.
    unfold waitAuthoritative. rewrite Hlen. unfold bind at 1.
    rewrite wait_for_expected, Hwait. reflexivity. }
  split.
  { intros Hty H2 H3. unfold Run_step. rewrite Hty. unfold waitAuthoritative.
    destruct (length (Split (data.Query_ q) space)) as [| [| [| [| n]]]]; try congruence;
      unfold bind at 1 2; unfold AddFailure, emit;
      rewrite wait_for_expected, log_with_events, with_events_app; reflexivity. }
  split.
  { intros Hty Hcell. rewrite (Run_step_Query E q t w Hty Hcell).
    split; [| split].
    - intros Hskip.
      destruct (Tester_runQuery_skipped E q (set_vexplain "" t)
                  (with_events w (explain_events E q (vexplain t) w)) Hskip)
        as (t' & Hrun & _).
      exists t'. unfold bind. rewrite Hrun. reflexivity.
    - intros Hskip err Hparse.
      destruct (Tester_runQuery_unparsed E q (set_vexplain "" t)
                  (with_events w (explain_events E q (vexplain t) w)) err Hskip Hparse)
        as (t' & Hrun & _).
      exists t'. unfold bind. rewrite Hrun. reflexivity.
    - intros Hskip ast Hparse a r' w2 Hcall.
      destruct (Tester_runQuery_dispatched E q (set_vexplain "" t)
                  (with_events w (explain_events E q (vexplain t) w))
                  ast a r' w2 Hskip Hparse Hcall)
        as (t' & Hrun & _).
      exists t'. unfold bind. rewrite Hrun. reflexivity. }
  intros Hty. cbv zeta.
  destruct (os_Remove E (hist w) (TrimSpace E (data.Query_ q))) as [e |] eqn:Hrm.
  - intros rest. cbn [Run_loop]. unfold bind at 1. unfold Run_step. rewrite Hty.
    unfold bind, Remove. rewrite Hrm. reflexivity.
  - unfold Run_step. rewrite Hty. unfold bind, Remove. rewrite Hrm. reflexivity.
Qed.

End ReportedErrors.

Lemma directive_errors_reported_loop_goes_on_witness :
  (exists t',
     Run_step goodEnv (directive typ.Query "select 2" 3) explain_pending emptyWorld
       = Done None t'
              (mkWorld [EvExecuteFetch VtConn "vexplain all select 2" (-1) false;
                        EvAddInfo ("VExplain Output:" ++ line_feed ++ " {}" ++ line_feed);
                        EvAddTestCase "select 2" 3;
                        EvRunQuery (directive typ.Query "select 2" 3) false select_cfg;
                        EvEndTestCase] "")) /\
  Run_step goodEnv (directive typ.VitessOnly "vitess_only end" 1)
           (NewTester [] stubRunner) emptyWorld
    = Done None (NewTester [] stubRunner) (log (EvAddFailure "no vitess_only to end") emptyWorld).
Proof.
  split.
  - pose proof (directive_errors_reported_loop_goes_on goodEnv
                  (directive typ.Query "select 2" 3) explain_pending emptyWorld) as H.
    cbv zeta in H. destruct H as (_ & _ & _ & _ & _ & _ & _ & _ & _ & _ & _ & H & _).
    assert (Hcell : vexplain explain_pending <> "" ->
                    has_first_cell
                      (fst (execute_fetch goodEnv (hist emptyWorld) VtConn
                              ("vexplain " ++ vexplain explain_pending ++ " "
                                 ++ data.Query_ (directive typ.Query "select 2" 3))
                              (-1) false))).
    { intros _. exists (mkResult [["{}"]]), "{}", [], []. split; reflexivity. }
    destruct (H eq_refl Hcell) as (_ & _ & Hrun).
    exact (Hrun eq_refl SelectStmt eq_refl None stubRunner
             (mkWorld [EvExecuteFetch VtConn "vexplain all select 2" (-1) false;
                       EvAddInfo ("VExplain Output:" ++ line_feed ++ " {}" ++ line_feed);
                       EvAddTestCase "select 2" 3;
                       EvRunQuery (directive typ.Query "select 2" 3) false select_cfg] "")
             eq_refl).
  - pose proof (directive_errors_reported_loop_goes_on goodEnv
                  (directive typ.VitessOnly "vitess_only end" 1)
                  (NewTester [] stubRunner) emptyWorld) as H.
    cbv zeta in H. destruct H as (_ & _ & _ & _ & H & _).
    apply (H eq_refl "no vitess_only to end" zeroState). reflexivity.
Defined.

(** C4, as stated, fails: the removal of the [RemoveFile] directive fails, no
    failure reaches the reporter, [Run] returns the error, and the [Skip]
    directive after it is never handled. *)
Lemma failed_removal_ends_the_loop :
  Run_loop noRemoveEnv remove_stream (NewTester [] stubRunner) emptyWorld
    = Done (Some "failed to remove file: remove gone.txt: no such file or directory")
           (NewTester [] stubRunner)
           (mkWorld [EvRemove "gone.txt"] "").
Proof. vm_compute. reflexivity. Qed.

(** ** The tester over the tracer *)

(** Two data-modifying statements in a row, through the tester with the
    tracer as its runner: each reaches the target once, inside its
    explain-trace statement, and the reference once. *)
Example two_traced_dmls_run_once_each :
  filter is_exec
    (hist (res_world
             (Run_loop goodEnv (runner := Tracer_QueryRunner goodEnv StubRunner _)
                       [insert1; insert1] (NewTester [] tracer0) opened)))
  = [EvExecuteFetch VtConn "vexplain trace insert into t values (1)" 10000 false;
     EvExecuteFetch MySQLConn "insert into t values (1)" 10000 false;
     EvExecuteFetch VtConn "vexplain trace insert into t values (1)" 10000 false;
     EvExecuteFetch MySQLConn "insert into t values (1)" 10000 false].
Proof. vm_compute. reflexivity. Qed.

(** A select is handed to the inner runner and traced after it. *)
Example traced_select_goes_through_inner :
  filter (fun e => is_exec e || is_runQuery e)
    (hist (res_world
             (Run_loop goodEnv (runner := Tracer_QueryRunner goodEnv StubRunner _)
                       [select2] (NewTester [] tracer0) opened)))
  = [EvRunQuery select2 false select_cfg;
     EvRunQuery select2 false select_cfg;
     EvExecuteFetch VtConn "vexplain trace select 2" 10000 false].
Proof. vm_compute. reflexivity. Qed.

(** * Further properties *)

(** ** Transaction signatures *)

Section Signatures.
Import transactions.

Lemma same_at_each_index_sound {A} (eqb : A -> A -> bool) (l1 l2 : list A) :
  (forall a b, eqb a b = true -> a = b) ->
  length l1 = length l2 ->
  same_at_each_index eqb l1 l2 = true -> l1 = l2.
Proof.
  intros Heqb. revert l2.
  induction l1 as [| x l1 IH]; intros [| y l2] Hlen Hsame; cbn in *; try discriminate.
  - reflexivity.
  - injection Hlen as Hlen. destruct (eqb x y) eqn:Hxy; [| discriminate].
    apply Heqb in Hxy. subst y. f_equal. apply IH; assumption.
Qed.

Lemma same_at_each_index_refl {A} (eqb : A -> A -> bool) (l : list A) :
  (forall a, eqb a a = true) -> same_at_each_index eqb l l = true.
Proof.
  intros Hrefl. induction l as [| x l IH]; cbn; [reflexivity |].
  rewrite Hrefl. exact IH.
Qed.

Lemma predicateInfo_eqb_sound (a b : predicateInfo) :
  predicateInfo_eqb a b = true -> a = b.
Proof.
  unfold predicateInfo_eqb. destruct a as [t1 c1 o1 v1], b as [t2 c2 o2 v2]. cbn.
  rewrite !andb_true_iff, !String.eqb_eq, !Z.eqb_eq.
  intros [[[-> ->] ->] ->]. reflexivity.
Qed.

Lemma predicateInfo_eqb_refl (a : predicateInfo) : predicateInfo_eqb a a = true.
Proof.
  unfold predicateInfo_eqb. rewrite !String.eqb_refl, !Z.eqb_refl. reflexivity.
Qed.

Lemma TxQuery_Equals_sound (tx other : TxQuery) :
  TxQuery_Equals tx other = true -> tx = other.
Proof.
  unfold TxQuery_Equals. destruct tx as [o1 t1 u1 p1], other as [o2 t2 u2 p2]. cbn.
  destruct (o1 =? o2)%string eqn:Ho; cbn; [| discriminate].
  destruct (t1 =? t2)%string eqn:Ht; cbn; [| discriminate].
  destruct (length u1 =? length u2)%nat eqn:Hlu; cbn; [| discriminate].
  destruct (same_at_each_index String.eqb u1 u2) eqn:Hu; cbn; [| discriminate].
  destruct (length p1 =? length p2)%nat eqn:Hlp; cbn; [| discriminate].
  destruct (same_at_each_index predicateInfo_eqb p1 p2) eqn:Hp; cbn; [| discriminate].
  intros _.
  apply String.eqb_eq in Ho, Ht. apply Nat.eqb_eq in Hlu, Hlp.
  apply same_at_each_index_sound in Hu; [| intros a b; apply String.eqb_eq | exact Hlu].
  apply same_at_each_index_sound in Hp; [| apply predicateInfo_eqb_sound | exact Hlp].
  subst. reflexivity.
Qed.

Lemma TxQuery_Equals_refl (tx : TxQuery) : TxQuery_Equals tx tx = true.
Proof.
  unfold TxQuery_Equals.
  rewrite !String.eqb_refl, !Nat.eqb_refl. cbn.
  rewrite (same_at_each_index_refl String.eqb _ String.eqb_refl).
  rewrite (same_at_each_index_refl predicateInfo_eqb _ predicateInfo_eqb_refl).
  reflexivity.
Qed.

(** X1.  [TxQuery.Equals] answers true exactly for two queries with the same
    operation, table, updated columns and predicates. *)
Theorem TxQuery_Equals_iff_equal (tx other : TxQuery) :
  TxQuery_Equals tx other = true <-> tx = other.
Proof.
  split.
  - apply TxQuery_Equals_sound.
  - intros ->. apply TxQuery_Equals_refl.
Qed.

Lemma Equals_sound (a b : TxSignature) :
  TxSignature_Equals a b = true -> Queries a = Queries b.
Proof.
  unfold TxSignature_Equals.
  destruct (length (Queries a) =? length (Queries b))%nat eqn:Hl; cbn; [| discriminate].
  apply Nat.eqb_eq in Hl.
  apply same_at_each_index_sound; [apply TxQuery_Equals_sound | exact Hl].
Qed.

Lemma Equals_complete (a b : TxSignature) :
  Queries a = Queries b -> TxSignature_Equals a b = true.
Proof.
  unfold TxSignature_Equals. intros ->. rewrite Nat.eqb_refl. cbn.
  apply same_at_each_index_refl, TxQuery_Equals_refl.
Qed.

Lemma Equals_sym (a b : TxSignature) :
  TxSignature_Equals a b = true -> TxSignature_Equals b a = true.
Proof. intros H. apply Equals_complete. symmetry. apply Equals_sound, H. Qed.

(** X2.  [TxSignature.Equals] compares the queries and nothing else: it is
    true exactly when the two lists of queries are the same, whatever the two
    counts are. *)
Theorem TxSignature_Equals_ignores_Count (tx other : TxSignature) :
  TxSignature_Equals tx other = true <-> Queries tx = Queries other.
Proof.
  split.
  - apply Equals_sound.
  - apply Equals_complete.
Qed.

Variable ToString : Z -> string.

Lemma Hash64_Queries (a b : TxSignature) :
  Queries a = Queries b -> Hash64 ToString a = Hash64 ToString b.
Proof. unfold Hash64. intros ->. reflexivity. Qed.

(** X3.  Two signatures that [Equals] takes for equal have the same
    [Hash64], so [Add] looks for a signature in the bucket its equals were
    put in. *)
Theorem equal_signatures_hash_alike (tx other : TxSignature) :
  TxSignature_Equals tx other = true ->
  Hash64 ToString tx = Hash64 ToString other.
Proof.
  intros H. apply Hash64_Queries. apply Equals_sound. exact H.
Qed.

Lemma wrap_int_in_range (z : Z) :
  (- 2 ^ 63 <= z < 2 ^ 63)%Z -> wrap_int z = z.
Proof.
  intros H. unfold wrap_int. rewrite Z.mod_small; lia.
Qed.

Lemma count_match_None (tx : TxSignature) (bucket : list TxSignature) :
  count_match tx bucket = None ->
  Forall (fun s => TxSignature_Equals tx s = false) bucket.
Proof.
  induction bucket as [| s rest IH]; cbn; intros H; [constructor |].
  destruct (TxSignature_Equals tx s) eqn:Heq; [discriminate |].
  destruct (count_match tx rest); [discriminate |].
  constructor; [exact Heq | apply IH; reflexivity].
Qed.

Lemma count_match_Some (tx : TxSignature) (bucket bucket' : list TxSignature) :
  count_match tx bucket = Some bucket' ->
  map Queries bucket' = map Queries bucket /\
  exists s, In s bucket' /\ TxSignature_Equals tx s = true.
Proof.
  revert bucket'. induction bucket as [| s rest IH]; cbn; intros bucket' H; [discriminate |].
  destruct (TxSignature_Equals tx s) eqn:Heq.
  - injection H as <-. split; [reflexivity |].
    eexists. split; [left; reflexivity |].
    apply Equals_complete. cbn. apply Equals_sound, Heq.
  - destruct (count_match tx rest) as [rest' |]; [| discriminate].
    injection H as <-. destruct (IH rest' eq_refl) as (Hq & s' & Hin & Hs').
    split; [cbn; rewrite Hq; reflexivity |].
    exists s'. split; [right; exact Hin | exact Hs'].
Qed.

Lemma nth_error_same_Queries (b b' : list TxSignature) (i : nat) (a' : TxSignature) :
  map Queries b' = map Queries b ->
  nth_error b' i = Some a' ->
  exists a, nth_error b i = Some a /\ Queries a = Queries a'.
Proof.
  intros Hq Hn.
  assert (H : nth_error (map Queries b) i = Some (Queries a')).
  { rewrite <- Hq, nth_error_map, Hn. reflexivity. }
  rewrite nth_error_map in H.
  destruct (nth_error b i) as [a |]; [| discriminate].
  exists a. split; [reflexivity |]. cbn in H. congruence.
Qed.

Lemma bucket_ok_same_Queries (hash : Z) (b b' : list TxSignature) :
  map Queries b' = map Queries b ->
  bucket_ok ToString hash b -> bucket_ok ToString hash b'.
Proof.
  intros Hq (Hne & Hhash & Hpair). split; [| split].
  - intros ->. destruct b; [congruence | discriminate].
  - apply Forall_forall. intros a' Hin.
    destruct (In_nth_error _ _ Hin) as (i & Hi).
    destruct (nth_error_same_Queries b b' i a' Hq Hi) as (a & Ha & Hqa).
    rewrite Forall_forall in Hhash.
    rewrite <- (Hhash a (nth_error_In _ _ Ha)).
    apply Hash64_Queries. symmetry. exact Hqa.
  - intros i j a' c' Hi Hj Heq.
    destruct (nth_error_same_Queries b b' i a' Hq Hi) as (a & Ha & Hqa).
    destruct (nth_error_same_Queries b b' j c' Hq Hj) as (c & Hc & Hqc).
    apply (Hpair i j a c Ha Hc).
    apply Equals_complete. rewrite Hqa, Hqc. apply Equals_sound, Heq.
Qed.

Lemma bucket_ok_append (tx : TxSignature) (b : list TxSignature) :
  bucket_ok ToString (Hash64 ToString tx) b ->
  Forall (fun s => TxSignature_Equals tx s = false) b ->
  bucket_ok ToString (Hash64 ToString tx) (b ++ [tx]).
Proof.
  intros (Hne & Hhash & Hpair) Hnone. split; [| split].
  - destruct b; discriminate.
  - apply Forall_app. split; [exact Hhash |]. constructor; [reflexivity | constructor].
  - assert (Hlast : forall i a, nth_error (b ++ [tx]) i = Some a ->
                      (i < length b /\ nth_error b i = Some a)%nat \/
                      (i = length b /\ a = tx)).
    { intros i a Hi. destruct (Nat.lt_ge_cases i (length b)) as [Hlt | Hge].
      - left. split; [exact Hlt |]. rewrite nth_error_app1 in Hi; assumption.
      - right. rewrite nth_error_app2 in Hi by exact Hge.
        destruct (i - length b)%nat as [| k] eqn:Hk; cbn in Hi.
        + split; [lia | congruence].
        + destruct k; discriminate. }
    rewrite Forall_forall in Hnone.
    intros i j a c Hi Hj Heq.
    destruct (Hlast i a Hi) as [[_ Ha] | [-> ->]], (Hlast j c Hj) as [[_ Hc] | [-> ->]].
    + apply (Hpair i j a c Ha Hc Heq).
    + apply Equals_sym in Heq.
      rewrite (Hnone a (nth_error_In _ _ Ha)) in Heq. discriminate.
    + rewrite (Hnone c (nth_error_In _ _ Hc)) in Heq. discriminate.
    + reflexivity.
Qed.

Lemma data_store_same (hash : Z) (bucket : list TxSignature) (m : txSignatureMap) :
  data (store hash bucket m) hash = Some bucket.
Proof. cbn. rewrite Z.eqb_refl. reflexivity. Qed.

Lemma data_store_other (hash h : Z) (bucket : list TxSignature) (m : txSignatureMap) :
  h <> hash -> data (store hash bucket m) h = data m h.
Proof. intros Hne. cbn. apply Z.eqb_neq in Hne. rewrite Hne. reflexivity. Qed.

Lemma map_ok_store (hash : Z) (bucket : list TxSignature) (m : txSignatureMap) :
  map_ok ToString m -> bucket_ok ToString hash bucket ->
  map_ok ToString (store hash bucket m).
Proof.
  intros Hm Hb h b Hdata. destruct (Z.eq_dec h hash) as [-> | Hne].
  - rewrite data_store_same in Hdata. injection Hdata as <-. exact Hb.
  - rewrite data_store_other in Hdata by exact Hne. apply Hm, Hdata.
Qed.

(** X4.  In the empty map, and in every map [Add] makes from a map of that
    kind, each bucket is non-empty, holds only signatures whose hash is the
    bucket's key, and holds no two signatures that are [Equals]. *)
Theorem Add_keeps_buckets_ok :
  map_ok ToString newTxSignatureMap /\
  forall tx m, map_ok ToString m -> map_ok ToString (Add ToString tx m).
Proof.
  split.
  - intros hash bucket H. discriminate.
  - intros tx m Hm. unfold Add. cbv zeta.
    destruct (data m (Hash64 ToString tx)) as [bucket |] eqn:Hdata.
    + pose proof (Hm _ _ Hdata) as Hb.
      destruct (count_match tx bucket) as [bucket' |] eqn:Hcm.
      * apply map_ok_store; [exact Hm |].
        apply (bucket_ok_same_Queries _ bucket); [| exact Hb].
        apply (count_match_Some tx bucket bucket' Hcm).
      * apply map_ok_store; [exact Hm |].
        apply bucket_ok_append; [exact Hb | apply count_match_None, Hcm].
    + apply map_ok_store; [exact Hm |].
      split; [discriminate | split].
      * constructor; [reflexivity | constructor].
      * intros [| i] [| j] a b Hi Hj _; cbn in Hi, Hj; try reflexivity;
          destruct i || destruct j; discriminate.
Qed.

(** X5.  After [Add tx], the bucket of [tx]'s hash holds a signature equal to
    [tx]; the buckets of the other hashes are as they were; and every
    signature the map held is still there, with the same queries. *)
Theorem Add_finds_and_keeps (tx : TxSignature) (m : txSignatureMap) :
  (exists bucket s,
     data (Add ToString tx m) (Hash64 ToString tx) = Some bucket /\
     In s bucket /\ TxSignature_Equals tx s = true) /\
  (forall h, h <> Hash64 ToString tx -> data (Add ToString tx m) h = data m h) /\
  (forall h b s,
     data m h = Some b -> In s b ->
     exists b' s',
       data (Add ToString tx m) h = Some b' /\ In s' b' /\ Queries s' = Queries s).
Proof.
  unfold Add. cbv zeta.
  destruct (data m (Hash64 ToString tx)) as [bucket |] eqn:Hdata.
  - destruct (count_match tx bucket) as [bucket' |] eqn:Hcm.
    + destruct (count_match_Some tx bucket bucket' Hcm) as (Hq & s0 & Hin0 & Heq0).
      split; [| split].
      * exists bucket', s0. rewrite data_store_same. auto.
      * intros h Hne. apply data_store_other, Hne.
      * intros h b s Hb Hin. destruct (Z.eq_dec h (Hash64 ToString tx)) as [-> | Hne].
        -- rewrite Hdata in Hb. injection Hb as <-.
           destruct (In_nth_error _ _ Hin) as (i & Hi).
           destruct (nth_error_same_Queries bucket' bucket i s (eq_sym Hq) Hi)
             as (s' & Hs' & Hqs).
           exists bucket', s'. rewrite data_store_same.
           split; [reflexivity |]. split; [eapply nth_error_In, Hs' | exact Hqs].
        -- exists b, s. rewrite data_store_other by exact Hne. auto.
    + split; [| split].
      * exists (bucket ++ [tx]), tx. rewrite data_store_same.
        split; [reflexivity |]. split; [apply in_or_app; right; left; reflexivity |].
        apply Equals_complete. reflexivity.
      * intros h Hne. apply data_store_other, Hne.
      * intros h b s Hb Hin. destruct (Z.eq_dec h (Hash64 ToString tx)) as [-> | Hne].
        -- rewrite Hdata in Hb. injection Hb as <-.
           exists (bucket ++ [tx]), s. rewrite data_store_same.
           split; [reflexivity |]. split; [apply in_or_app; left; exact Hin | reflexivity].
        -- exists b, s. rewrite data_store_other by exact Hne. auto.
  - split; [| split].
    + exists [set_Count 1 tx], (set_Count 1 tx). rewrite data_store_same.
      split; [reflexivity |]. split; [left; reflexivity |].
      apply Equals_complete. reflexivity.
    + intros h Hne. apply data_store_other, Hne.
    + intros h b s Hb Hin. destruct (Z.eq_dec h (Hash64 ToString tx)) as [-> | Hne].
      * congruence.
      * exists b, s. rewrite data_store_other by exact Hne. auto.
Qed.

Lemma Add_counts_from (rest : list TxSignature) :
  forall (first : TxSignature) (c : Z) (m : txSignatureMap),
    Forall (fun s => TxSignature_Equals first s = true) rest ->
    (- 2 ^ 63 <= c)%Z -> (c + Z.of_nat (length rest) < 2 ^ 63)%Z ->
    data m (Hash64 ToString first) = Some [set_Count c first] ->
    data (fold_left (fun m s => Add ToString s m) rest m) (Hash64 ToString first)
      = Some [set_Count (c + Z.of_nat (length rest)) first].
Proof.
  induction rest as [| s rest IH]; intros first c m Hall Hlo Hhi Hdata.
  - cbn. rewrite Z.add_0_r. exact Hdata.
  - inversion Hall as [| s' rest' Hs Hrest]; subst.
    cbn [fold_left length] in *. rewrite Nat2Z.inj_succ in *.
    replace (c + Z.succ (Z.of_nat (length rest)))%Z
      with ((c + 1) + Z.of_nat (length rest))%Z by lia.
    apply IH; [exact Hrest | lia | lia |].
    unfold Add. cbv zeta.
    rewrite <- (Hash64_Queries first s (Equals_sound _ _ Hs)), Hdata.
    cbn [count_match].
    assert (Heq : TxSignature_Equals s (set_Count c first) = true).
    { apply Equals_complete. cbn. symmetry. apply Equals_sound, Hs. }
    rewrite Heq. rewrite data_store_same. cbn [Count set_Count Queries].
    rewrite wrap_int_in_range by lia. reflexivity.
Qed.

(** X6.  When the signature [first] and then signatures equal to it are
    added to a map that has no bucket for their hash, the bucket ends up
    with [first] alone, and its count is the number of signatures added (as
    long as that number fits a Go [int]). *)
Theorem equal_signatures_are_counted
    (first : TxSignature) (rest : list TxSignature) (m : txSignatureMap) :
  Forall (fun s => TxSignature_Equals first s = true) rest ->
  (1 + Z.of_nat (length rest) < 2 ^ 63)%Z ->
  data m (Hash64 ToString first) = None ->
  data (fold_left (fun m s => Add ToString s m) (first :: rest) m) (Hash64 ToString first)
    = Some [set_Count (1 + Z.of_nat (length rest)) first].
Proof.
  intros Hall Hfit Hnone. cbn [fold_left].
  assert (Hfirst : data (Add ToString first m) (Hash64 ToString first)
                   = Some [set_Count 1 first]).
  { unfold Add. cbv zeta. rewrite Hnone. apply data_store_same. }
  pose proof (Add_counts_from rest (set_Count 1 first) 1 (Add ToString first m)) as H.
  cbn [set_Count Queries] in H.
  assert (Hh : Hash64 ToString (set_Count 1 first) = Hash64 ToString first)
    by (apply Hash64_Queries; reflexivity).
  rewrite Hh in H.
  assert (Hset : forall c, set_Count c (set_Count 1 first) = set_Count c first)
    by reflexivity.
  rewrite !Hset in H. apply H; try lia; [| exact Hfirst].
  eapply Forall_impl; [| exact Hall]. cbn. intros s Hs.
  apply Equals_complete. cbn. apply Equals_sound, Hs.
Qed.

End Signatures.

(** ** [CleanUp] *)

Section CleanUpProperties.
Import transactions.

Lemma occurrences_cons (v x : Z) (vs : list Z) :
  occurrences v (x :: vs) = ((if (v =? x)%Z then 1 else 0) + occurrences v vs)%nat.
Proof. unfold occurrences. cbn. destruct (v =? x)%Z; reflexivity. Qed.

Lemma occurrences_app (v : Z) (l1 l2 : list Z) :
  occurrences v (l1 ++ l2) = (occurrences v l1 + occurrences v l2)%nat.
Proof. unfold occurrences. rewrite filter_app, length_app. reflexivity. Qed.

Lemma count_value_fold (ps : list predicateInfo) :
  forall used v,
    fold_left count_value ps used v
    = (used v + Z.of_nat (occurrences v (map Val ps)))%Z.
Proof.
  induction ps as [| p ps IH]; intros used v; cbn [fold_left map].
  - unfold occurrences. cbn. lia.
  - rewrite IH, occurrences_cons. unfold count_value.
    destruct (v =? Val p)%Z; lia.
Qed.

Lemma usedValues_fold (qs : list TxQuery) :
  forall used v,
    fold_left (fun used q => fold_left count_value (Predicates q) used) qs used v
    = (used v + Z.of_nat (occurrences v (values_of qs)))%Z.
Proof.
  induction qs as [| q qs IH]; intros used v; cbn [fold_left].
  - unfold occurrences. cbn. lia.
  - change (values_of (q :: qs)) with (map Val (Predicates q) ++ values_of qs).
    rewrite IH, count_value_fold, occurrences_app. lia.
Qed.

Lemma usedValues_occurrences (tx : TxSignature) (v : Z) :
  usedValues tx v = Z.of_nat (occurrences v (values tx)).
Proof. unfold usedValues, values. rewrite usedValues_fold. reflexivity. Qed.

Lemma clean_predicates_blank (used : Z -> Z) (ps : list predicateInfo) :
  forall st, map (set_Val 0) (snd (clean_predicates used st ps)) = map (set_Val 0) ps.
Proof.
  induction ps as [| p ps IH]; intros st; cbn; [reflexivity |].
  rewrite IH. f_equal. unfold clean_predicate.
  destruct (used (Val p) =? 1)%Z; [reflexivity |].
  destruct (snd st (Val p)); reflexivity.
Qed.

Lemma clean_queries_blank (used : Z -> Z) (qs : list TxQuery) :
  forall st, map blank_query (snd (clean_queries used st qs)) = map blank_query qs.
Proof.
  induction qs as [| q qs IH]; intros st; cbn; [reflexivity |].
  rewrite IH. f_equal. unfold blank_query. cbn. rewrite clean_predicates_blank. reflexivity.
Qed.

(** X7.  [CleanUp] changes predicate values and nothing else: the count, the
    queries with their operation, table and updated columns, and the table,
    column and operator of each predicate are those of the signature it was
    given. *)
Theorem CleanUp_changes_values_only (tx : TxSignature) :
  blank_values (CleanUp tx) = blank_values tx.
Proof.
  unfold blank_values, CleanUp. cbn [Count Queries]. f_equal.
  apply (clean_queries_blank (usedValues tx) (Queries tx)).
Qed.

Lemma renumbering_extends_refl st : renumbering_extends st st.
Proof. split; [lia | auto]. Qed.

Lemma renumbering_extends_trans st1 st2 st3 :
  renumbering_extends st1 st2 -> renumbering_extends st2 st3 -> renumbering_extends st1 st3.
Proof. intros [H1 H2] [H3 H4]. split; [lia | auto]. Qed.

Lemma renumbered_extends used st st' v v' :
  renumbering_extends st st' -> renumbered used st v v' -> renumbered used st' v v'.
Proof.
  unfold renumbered. intros [_ Hext]. destruct (used v =? 1)%Z; auto.
Qed.

Lemma clean_predicate_ok used st p :
  renumbering_ok st ->
  renumbering_ok (fst (clean_predicate used st p)) /\
  renumbering_extends st (fst (clean_predicate used st p)) /\
  renumbered used (fst (clean_predicate used st p)) (Val p) (Val (snd (clean_predicate used st p))) /\
  (fst (fst (clean_predicate used st p)) <= fst st + 1)%Z.
Proof.
  intros (Hpos & Hrange & Hinj). unfold clean_predicate.
  destruct (used (Val p) =? 1)%Z eqn:Hused; cbn [fst snd].
  - split; [exact (conj Hpos (conj Hrange Hinj)) |]. split; [apply renumbering_extends_refl |].
    split; [| lia]. unfold renumbered. rewrite Hused. reflexivity.
  - destruct (snd st (Val p)) as [n |] eqn:Hn; cbn [fst snd].
    + split; [exact (conj Hpos (conj Hrange Hinj)) |]. split; [apply renumbering_extends_refl |].
      split; [| lia]. unfold renumbered. rewrite Hused. exact Hn.
    + unfold renumbering_ok, renumbering_extends. cbn [fst snd].
      split; [| split; [| split]].
      * split; [lia |]. split.
        -- intros v n. destruct (v =? Val p)%Z.
           ++ intros H. injection H as <-. lia.
           ++ intros H. specialize (Hrange v n H). lia.
        -- intros v1 v2 n.
           destruct (v1 =? Val p)%Z eqn:H1, (v2 =? Val p)%Z eqn:H2; intros E1 E2.
           ++ apply Z.eqb_eq in H1, H2. congruence.
           ++ injection E1 as <-. specialize (Hrange v2 _ E2). lia.
           ++ injection E2 as <-. specialize (Hrange v1 _ E1). lia.
           ++ eapply Hinj; eassumption.
      * split; [lia |]. intros v n H.
        destruct (v =? Val p)%Z eqn:Hv; [| exact H].
        apply Z.eqb_eq in Hv. subst v. congruence.
      * unfold renumbered. rewrite Hused. cbn [snd Val set_Val].
        rewrite Z.eqb_refl. reflexivity.
      * lia.
Qed.

Lemma clean_predicates_ok used (ps : list predicateInfo) :
  forall st,
    renumbering_ok st ->
    renumbering_ok (fst (clean_predicates used st ps)) /\
    renumbering_extends st (fst (clean_predicates used st ps)) /\
    Forall2 (renumbered used (fst (clean_predicates used st ps)))
            (map Val ps) (map Val (snd (clean_predicates used st ps))) /\
    (fst (fst (clean_predicates used st ps)) <= fst st + Z.of_nat (length ps))%Z.
Proof.
  induction ps as [| p ps IH]; intros st Hok; cbn [clean_predicates fst snd map length].
  - split; [exact Hok |]. split; [apply renumbering_extends_refl |].
    split; [constructor | lia].
  - destruct (clean_predicate_ok used st p Hok) as (Hok1 & Hext1 & Hren1 & Hle1).
    destruct (IH _ Hok1) as (Hok2 & Hext2 & Hren2 & Hle2).
    split; [exact Hok2 |].
    split; [eapply renumbering_extends_trans; eassumption |].
    split; [| lia].
    constructor; [| exact Hren2].
    eapply renumbered_extends; eassumption.
Qed.

Lemma Forall2_renumbered_extends used st st' l l' :
  renumbering_extends st st' ->
  Forall2 (renumbered used st) l l' -> Forall2 (renumbered used st') l l'.
Proof.
  intros Hext H. induction H; constructor; [| assumption].
  eapply renumbered_extends; eassumption.
Qed.

Lemma clean_queries_ok used (qs : list TxQuery) :
  forall st,
    renumbering_ok st ->
    renumbering_ok (fst (clean_queries used st qs)) /\
    renumbering_extends st (fst (clean_queries used st qs)) /\
    Forall2 (renumbered used (fst (clean_queries used st qs)))
            (values_of qs) (values_of (snd (clean_queries used st qs))) /\
    (fst (fst (clean_queries used st qs)) <= fst st + Z.of_nat (length (values_of qs)))%Z.
Proof.
  induction qs as [| q qs IH]; intros st Hok; cbn [clean_queries fst snd].
  - split; [exact Hok |]. split; [apply renumbering_extends_refl |].
    split; [constructor | cbn; lia].
  - destruct (clean_predicates_ok used (Predicates q) st Hok) as (Hok1 & Hext1 & Hren1 & Hle1).
    destruct (IH _ Hok1) as (Hok2 & Hext2 & Hren2 & Hle2).
    split; [exact Hok2 |].
    split; [eapply renumbering_extends_trans; eassumption |].
    change (values_of (q :: qs)) with (map Val (Predicates q) ++ values_of qs).
    match goal with
    | |- context [values_of (?q' :: ?qs')] =>
        change (values_of (q' :: qs')) with (map Val (Predicates q') ++ values_of qs')
    end.
    cbn [Predicates].
    split.
    + apply Forall2_app; [| exact Hren2].
      eapply Forall2_renumbered_extends; eassumption.
    + rewrite length_app, length_map, Nat2Z.inj_add. lia.
Qed.

Lemma Forall2_nth_error_left {A B} (P : A -> B -> Prop) (l : list A) (l' : list B) :
  Forall2 P l l' ->
  forall i a, nth_error l i = Some a -> exists b, nth_error l' i = Some b /\ P a b.
Proof.
  induction 1 as [| x y l l' Hxy _ IH]; intros [| i] a Hi; cbn in *; try discriminate.
  - injection Hi as <-. eauto.
  - apply IH, Hi.
Qed.

Lemma renumbering_ok_start : renumbering_ok (0%Z, fun _ => None).
Proof. split; [cbn; lia |]. split; intros; discriminate. Qed.

(** What [CleanUp] does to the values, position by position. *)
Lemma CleanUp_values (tx : TxSignature) :
  exists st,
    renumbering_ok st /\
    (fst st <= Z.of_nat (length (values tx)))%Z /\
    Forall2 (renumbered (usedValues tx) st) (values tx) (values (CleanUp tx)).
Proof.
  destruct (clean_queries_ok (usedValues tx) (Queries tx) _ renumbering_ok_start)
    as (Hok & _ & Hren & Hle).
  eexists. split; [exact Hok |]. split; [exact Hle |]. exact Hren.
Qed.

Lemma used_is_one (tx : TxSignature) (v : Z) :
  (usedValues tx v =? 1)%Z = (occurrences v (values tx) =? 1)%nat.
Proof.
  rewrite usedValues_occurrences.
  destruct (occurrences v (values tx) =? 1)%nat eqn:H.
  - apply Nat.eqb_eq in H. rewrite H. reflexivity.
  - apply Nat.eqb_neq in H. apply Z.eqb_neq. lia.
Qed.

(** X8.  [CleanUp] keeps the number and the order of the predicate values.
    A value that occurs once in the whole signature becomes -1; a value that
    occurs more often becomes a number from 0 up to, and not including, the
    number of values. *)
Theorem CleanUp_single_use_becomes_minus_one (tx : TxSignature) (i : nat) (v : Z) :
  nth_error (values tx) i = Some v ->
  exists v',
    nth_error (values (CleanUp tx)) i = Some v' /\
    (occurrences v (values tx) = 1%nat -> v' = (-1)%Z) /\
    (occurrences v (values tx) <> 1%nat ->
       (0 <= v' < Z.of_nat (length (values tx)))%Z).
Proof.
  intros Hi. destruct (CleanUp_values tx) as (st & (Hpos & Hrange & _) & Hle & Hren).
  destruct (Forall2_nth_error_left _ _ _ Hren i v Hi) as (v' & Hi' & Hv).
  exists v'. split; [exact Hi' |].
  unfold renumbered in Hv. rewrite used_is_one in Hv. split.
  - intros Hone. rewrite Hone in Hv. exact Hv.
  - intros Hmany. apply Nat.eqb_neq in Hmany. rewrite Hmany in Hv.
    specialize (Hrange _ _ Hv). lia.
Qed.

(** X9.  Among the values that occur more than once, [CleanUp] renames
    consistently and without clashes: two places get the same new value
    exactly when they held the same old value. *)
Theorem CleanUp_renames_consistently
    (tx : TxSignature) (i j : nat) (vi vj vi' vj' : Z) :
  nth_error (values tx) i = Some vi ->
  nth_error (values tx) j = Some vj ->
  nth_error (values (CleanUp tx)) i = Some vi' ->
  nth_error (values (CleanUp tx)) j = Some vj' ->
  occurrences vi (values tx) <> 1%nat ->
  occurrences vj (values tx) <> 1%nat ->
  (vi' = vj' <-> vi = vj).
Proof.
  intros Hi Hj Hi' Hj' Hmi Hmj.
  destruct (CleanUp_values tx) as (st & (_ & _ & Hinj) & _ & Hren).
  destruct (Forall2_nth_error_left _ _ _ Hren i vi Hi) as (a & Ha & Hva).
  destruct (Forall2_nth_error_left _ _ _ Hren j vj Hj) as (b & Hb & Hvb).
  rewrite Hi' in Ha. injection Ha as <-. rewrite Hj' in Hb. injection Hb as <-.
  unfold renumbered in Hva, Hvb. rewrite used_is_one in Hva, Hvb.
  apply Nat.eqb_neq in Hmi, Hmj. rewrite Hmi in Hva. rewrite Hmj in Hvb.
  split.
  - intros ->. eapply Hinj; eassumption.
  - intros ->. congruence.
Qed.

End CleanUpProperties.

(** ** [findTable] *)

Section FindTable.

Lemma findTable_tables_meet (name ksName : string) (tables : list string) :
  forall ks,
    findTable_tables name ksName tables ks
    = meet_keyspaces name (map (fun _ => ksName) (filter (fun tbl => tbl =? name) tables)) ks.
Proof.
  induction tables as [| tbl rest IH]; intros ks; cbn; [reflexivity |].
  destruct (tbl =? name); cbn.
  - destruct (negb (ks =? "")); [reflexivity | apply IH].
  - apply IH.
Qed.

Lemma meet_keyspaces_app (name : string) (l1 l2 : list string) :
  forall ks,
    meet_keyspaces name (l1 ++ l2) ks
    = match meet_keyspaces name l1 ks with
      | inl err => inl err
      | inr ks' => meet_keyspaces name l2 ks'
      end.
Proof.
  induction l1 as [| k l1 IH]; intros ks; cbn; [reflexivity |].
  destruct (negb (ks =? "")); [reflexivity | apply IH].
Qed.

Lemma findTable_keyspaces_meet (name : string) (kss : list (string * list string)) :
  forall ks,
    findTable_keyspaces name kss ks = meet_keyspaces name (keyspaces_of name kss) ks.
Proof.
  induction kss as [| [ksName tables] rest IH]; intros ks; cbn; [reflexivity |].
  rewrite meet_keyspaces_app, findTable_tables_meet.
  destruct (meet_keyspaces name _ ks); [reflexivity | apply IH].
Qed.

Lemma meet_keyspaces_named (name : string) (found : list string) (ks : string) :
  ks <> "" ->
  meet_keyspaces name found ks
  = match found with
    | [] => inr ks
    | _ :: _ => inl ("table " ++ name ++ " found in multiple keyspaces")%string
    end.
Proof.
  intros Hks. destruct found as [| k rest]; cbn; [reflexivity |].
  apply String.eqb_neq in Hks. rewrite Hks. reflexivity.
Qed.

Lemma meet_keyspaces_unnamed (name : string) (found : list string) :
  meet_keyspaces name found ""
  = match drop_unnamed found with
    | [] => inr ""
    | [ks] => inr ks
    | _ :: _ :: _ => inl ("table " ++ name ++ " found in multiple keyspaces")%string
    end.
Proof.
  induction found as [| k rest IH]; cbn; [reflexivity |].
  destruct (k =? "") eqn:Hk.
  - apply String.eqb_eq in Hk. subst k. exact IH.
  - apply String.eqb_neq in Hk. rewrite (meet_keyspaces_named name rest k Hk).
    destruct rest; reflexivity.
Qed.

Lemma drop_unnamed_head (found : list string) (ks : string) (rest : list string) :
  drop_unnamed found = ks :: rest -> ks <> "".
Proof.
  induction found as [| k l IH]; cbn; [discriminate |].
  destruct (k =? "") eqn:Hk; [exact IH |].
  intros H. injection H as <- _. apply String.eqb_neq, Hk.
Qed.

Lemma drop_unnamed_In (found : list string) (ks : string) :
  In ks (drop_unnamed found) -> In ks found.
Proof.
  induction found as [| k l IH]; cbn; [auto |].
  destruct (k =? ""); [intros H; right; apply IH, H | auto].
Qed.

Lemma keyspaces_of_In (name ks : string) (kss : list (string * list string)) :
  In ks (keyspaces_of name kss) ->
  exists tables, In (ks, tables) kss /\ In name tables.
Proof.
  unfold keyspaces_of. intros H. apply in_flat_map in H.
  destruct H as ([ksName tables] & Hin & H). cbn in H.
  apply in_map_iff in H. destruct H as (tbl & <- & Htbl).
  apply filter_In in Htbl. destruct Htbl as [Htbl Heq].
  apply String.eqb_eq in Heq. subst tbl.
  exists tables. split; assumption.
Qed.

Lemma findTable_by_cases (kss : list (string * list string)) (name : string) :
  findTable kss name
  = match drop_unnamed (keyspaces_of name kss) with
    | [] => inl ("table " ++ name ++ " not found in any keyspace")%string
    | [ks] => inr ks
    | _ :: _ :: _ => inl ("table " ++ name ++ " found in multiple keyspaces")%string
    end.
Proof.
  unfold findTable. rewrite findTable_keyspaces_meet, meet_keyspaces_unnamed.
  destruct (drop_unnamed (keyspaces_of name kss)) as [| ks [| ks' rest]] eqn:Hd.
  - reflexivity.
  - apply drop_unnamed_head in Hd. apply String.eqb_neq in Hd. rewrite Hd. reflexivity.
  - reflexivity.
Qed.

(** X10.  [findTable] looks at the keyspaces of the tables called [name],
    in the order it meets them, and forgets those met while no keyspace with
    a name was seen.  When none is left the table is reported as not found;
    when one is left it is the answer; when more are left the table is
    reported as found in multiple keyspaces. *)
Theorem findTable_characterised (kss : list (string * list string)) (name : string) :
  findTable kss name
  = match drop_unnamed (keyspaces_of name kss) with
    | [] => inl ("table " ++ name ++ " not found in any keyspace")%string
    | [ks] => inr ks
    | _ :: _ :: _ => inl ("table " ++ name ++ " found in multiple keyspaces")%string
    end.
Proof.
  rewrite findTable_by_cases.
  destruct (drop_unnamed (keyspaces_of name kss)) as [| ks [| ks' rest]]; reflexivity.
Qed.

(** X11.  A keyspace that [findTable] returns has a name and holds a table
    called [name]. *)
Theorem findTable_sound (kss : list (string * list string)) (name ks : string) :
  findTable kss name = inr ks ->
  ks <> "" /\ exists tables, In (ks, tables) kss /\ In name tables.
Proof.
  rewrite findTable_by_cases.
  destruct (drop_unnamed (keyspaces_of name kss)) as [| k [| k' rest]] eqn:Hd;
    try discriminate.
  intros H. injection H as <-. split.
  - eapply drop_unnamed_head, Hd.
  - apply (keyspaces_of_In name). apply drop_unnamed_In. rewrite Hd. left. reflexivity.
Qed.

(** X12.  When no keyspace holds a table called [name], [findTable] fails
    with the error that the table was not found in any keyspace. *)
Theorem findTable_missing_table (kss : list (string * list string)) (name : string) :
  (forall ks tables, In (ks, tables) kss -> ~ In name tables) ->
  findTable kss name = inl ("table " ++ name ++ " not found in any keyspace")%string.
Proof.
  intros Hnone. rewrite findTable_by_cases.
  destruct (drop_unnamed (keyspaces_of name kss)) as [| k rest] eqn:Hd; [reflexivity |].
  exfalso.
  assert (Hin : In k (keyspaces_of name kss)).
  { apply drop_unnamed_In. rewrite Hd. left. reflexivity. }
  destruct (keyspaces_of_In name k kss Hin) as (tables & Hks & Htbl).
  exact (Hnone k tables Hks Htbl).
Qed.

End FindTable.

(** ** [getShardingKeysForTable] *)

Section ShardingKeys.
Import sqlparser.

Lemma normalize_columns_closed (cols : list ColumnDefinition) :
  forall indexes allIdCI,
    normalize_columns cols indexes allIdCI
    = (map without_inline_key cols,
       indexes ++ map newPrimaryKeyIndexDefinitionSingleColumn (inline_primary cols),
       allIdCI ++ map Name cols).
Proof.
  induction cols as [| col rest IH]; intros indexes allIdCI; cbn [normalize_columns].
  - cbn. rewrite !app_nil_r. reflexivity.
  - rewrite IH. unfold without_inline_key, inline_primary. cbn [map filter].
    destruct (is_ColKeyPrimary (KeyOpt col)); cbn [map]; rewrite <- !app_assoc; reflexivity.
Qed.

Lemma primary_columns_closed (indexes : list IndexDefinition) :
  forall sks, primary_columns indexes sks = sks ++ indexed_primary indexes.
Proof.
  induction indexes as [| index rest IH]; intros sks; cbn [primary_columns].
  - unfold indexed_primary. cbn. rewrite app_nil_r. reflexivity.
  - unfold indexed_primary. cbn [filter].
    destruct (is_IndexTypePrimary (Info_Type index)); rewrite IH.
    + cbn [flat_map]. rewrite <- app_assoc. reflexivity.
    + reflexivity.
Qed.

Lemma indexed_primary_app (l1 l2 : list IndexDefinition) :
  indexed_primary (l1 ++ l2) = indexed_primary l1 ++ indexed_primary l2.
Proof. unfold indexed_primary. rewrite filter_app, flat_map_app. reflexivity. Qed.

Lemma indexed_primary_new (names : list string) :
  indexed_primary (map newPrimaryKeyIndexDefinitionSingleColumn names) = names.
Proof.
  induction names as [| n rest IH]; [reflexivity |].
  unfold indexed_primary in *. cbn. rewrite IH. reflexivity.
Qed.

Lemma inline_primary_normalized (cols : list ColumnDefinition) :
  inline_primary (map without_inline_key cols) = [].
Proof.
  induction cols as [| col rest IH]; [reflexivity |].
  unfold inline_primary in *. cbn [map filter]. unfold without_inline_key at 1.
  destruct (is_ColKeyPrimary (KeyOpt col)) eqn:Hk; cbn [KeyOpt is_ColKeyPrimary].
  - exact IH.
  - rewrite Hk. exact IH.
Qed.

Lemma without_inline_key_Name (cols : list ColumnDefinition) :
  map Name (map without_inline_key cols) = map Name cols.
Proof.
  rewrite map_map. apply map_ext. intros col. unfold without_inline_key.
  destruct (is_ColKeyPrimary (KeyOpt col)); reflexivity.
Qed.

Lemma without_inline_key_twice (cols : list ColumnDefinition) :
  map without_inline_key (map without_inline_key cols) = map without_inline_key cols.
Proof.
  rewrite map_map. apply map_ext. intros col. unfold without_inline_key.
  destruct (is_ColKeyPrimary (KeyOpt col)) eqn:Hk.
  - reflexivity.
  - rewrite Hk. reflexivity.
Qed.

Lemma getShardingKeysForTable_closed (spec : TableSpec) :
  getShardingKeysForTable spec
  = (match indexed_primary (Indexes spec) ++ inline_primary (Columns spec) with
     | [] => map Name (Columns spec)
     | keys => keys
     end,
     mkTableSpec
       (map without_inline_key (Columns spec))
       (Indexes spec
          ++ map newPrimaryKeyIndexDefinitionSingleColumn (inline_primary (Columns spec)))).
Proof.
  unfold getShardingKeysForTable. rewrite normalize_columns_closed.
  rewrite primary_columns_closed, indexed_primary_app, indexed_primary_new.
  cbn [app].
  destruct (indexed_primary (Indexes spec) ++ inline_primary (Columns spec)); reflexivity.
Qed.

(** X13.  The sharding keys are the columns of the primary indexes of the
    table followed by the columns declared as primary key inline; when there
    is neither, they are all the columns of the table. *)
Theorem sharding_keys_are_the_primary_key (spec : TableSpec) :
  fst (getShardingKeysForTable spec)
  = match indexed_primary (Indexes spec) ++ inline_primary (Columns spec) with
    | [] => map Name (Columns spec)
    | keys => keys
    end.
Proof. rewrite getShardingKeysForTable_closed. reflexivity. Qed.

(** X14.  The function leaves the table spec normalized: no column keeps an
    inline primary key, the column names are as before, and the indexes are
    the former ones followed by one single-column index named PRIMARY per
    inline primary key. *)
Theorem sharding_keys_normalize_the_table (spec : TableSpec) :
  let spec' := snd (getShardingKeysForTable spec) in
  inline_primary (Columns spec') = [] /\
  map Name (Columns spec') = map Name (Columns spec) /\
  Indexes spec'
  = Indexes spec
      ++ map (fun name => mkIndex "PRIMARY" IndexTypePrimary [name])
             (inline_primary (Columns spec)).
Proof.
  cbv zeta. rewrite getShardingKeysForTable_closed. cbn [snd Columns Indexes].
  split; [apply inline_primary_normalized |].
  split; [apply without_inline_key_Name | reflexivity].
Qed.

(** X15.  Run again on the table spec it left, the function returns the same
    keys and leaves the table spec as it is. *)
Theorem sharding_keys_idempotent (spec : TableSpec) :
  getShardingKeysForTable (snd (getShardingKeysForTable spec))
  = getShardingKeysForTable spec.
Proof.
  rewrite !getShardingKeysForTable_closed. cbn [snd Columns Indexes].
  rewrite inline_primary_normalized, without_inline_key_twice, without_inline_key_Name.
  cbn [map]. rewrite !app_nil_r, indexed_primary_app, indexed_primary_new.
  reflexivity.
Qed.

(** X16.  A table with a column never gets an empty list of sharding keys. *)
Theorem sharding_keys_not_empty (spec : TableSpec) :
  Columns spec <> [] -> fst (getShardingKeysForTable spec) <> [].
Proof.
  intros Hcols. rewrite getShardingKeysForTable_closed. cbn [fst].
  destruct (indexed_primary (Indexes spec) ++ inline_primary (Columns spec)) eqn:Hk.
  - destruct (Columns spec); [congruence | discriminate].
  - discriminate.
Qed.

End ShardingKeys.

(** ** The trace file *)

Lemma append_assoc_string (a b c : string) : ((a ++ b) ++ c)%string = (a ++ b ++ c)%string.
Proof. induction a as [| x a IH]; cbn; [reflexivity | rewrite IH; reflexivity]. Qed.

Lemma comma_separated_snoc (objs : list string) (obj : string) :
  comma_separated (objs ++ [obj])
  = match objs with
    | [] => obj
    | _ :: _ => (comma_separated objs ++ "," ++ obj)%string
    end.
Proof.
  induction objs as [| o rest IH]; [reflexivity |].
  destruct rest as [| o' rest'].
  - reflexivity.
  - change (comma_separated ((o :: o' :: rest') ++ [obj]))
      with (o ++ "," ++ comma_separated ((o' :: rest') ++ [obj]))%string.
    rewrite IH.
    change (comma_separated (o :: o' :: rest'))
      with (o ++ "," ++ comma_separated (o' :: rest'))%string.
    rewrite !append_assoc_string. reflexivity.
Qed.

Section TraceFile.
Variable E : Env.
Context {I : Type} {innerRunner : QueryRunner I}.

(** X17.  While the tracer's flag and the file agree (the file holds what it
    held when the tracer was made, then the objects written so far with one
    comma between neighbours, and the flag tells whether there is an
    object), a capture that returns nil keeps them in agreement, with its
    object added at the end. *)
Theorem trace_appends_one_object
    (base : string) (objs : list string) (q : data.Query) (t t' : Tracer I) (w w' : World) :
  file_agrees base objs t w ->
  Tracer_trace E q t w = Done None t' w' ->
  exists queryJSON prettyTrace,
    file_agrees base (objs ++ [json_object queryJSON (data.Line q) prettyTrace]) t' w'.
Proof.
  intros [Hdisk Hflag] Htrace.
  destruct (Tracer_trace_success E q t t' w w' Htrace)
    as (queryJSON & cell & prettyTrace & _ & _ & _ & Ht' & _ & Hdisk').
  exists queryJSON, prettyTrace. split.
  - rewrite Hdisk', Hdisk, Hflag, comma_separated_snoc. unfold trace_entry.
    destruct objs as [| o rest]; cbn [negb].
    + cbn [comma_separated]. rewrite append_empty_r. reflexivity.
    + rewrite !append_assoc_string. reflexivity.
  - rewrite Ht'. cbn [alreadyWrittenTraces set_alreadyWrittenTraces].
    destruct objs; reflexivity.
Qed.

Lemma filter_is_write_grows (l : list Event) (e : Event) (b : string) :
  filter is_write (l ++ [e; EvWrite b]) <> filter is_write l.
Proof.
  intros H. apply (f_equal (@length Event)) in H.
  rewrite filter_app, length_app in H. cbn in H.
  destruct (is_write e); cbn in H; lia.
Qed.

(** X18.  With a trace file open, a capture that issues no write, however it
    ends, leaves the tracer's flag and the file as they were. *)
Theorem trace_without_write_changes_nothing (q : data.Query) (t : Tracer I) (w : World) :
  traceFile t <> None ->
  filter is_write (hist (res_world (Tracer_trace E q t w))) = filter is_write (hist w) ->
  res_state (Tracer_trace E q t w) = t /\
  disk (res_world (Tracer_trace E q t w)) = disk w.
Proof.
  intros Hfile. rewrite Tracer_trace_cases.
  destruct (json_Marshal E (data.Query_ q)) as [err | queryJSON]; [auto |].
  cbn zeta.
  destruct (execute_fetch E (hist w) VtConn (trace_sql q) 10000 false) as [rs [err |]];
    cbn [snd fst]; [auto |].
  destruct (first_cell rs) as [cell |]; [| auto].
  destruct (json_Indent E cell) as [err | prettyTrace]; [auto |].
  destruct (traceFile t) as [f |]; [| congruence].
  destruct (file_write E _ _) as [[n err] |]; cbn [res_world res_state wrote log hist];
    rewrite <- app_assoc; cbn [app]; intros H;
    exfalso; exact (filter_is_write_grows _ _ _ H).
Qed.

End TraceFile.

(** ** Directives, one after the other *)

Section DirectivePairs.
Variable E : Env.
Context {R : Type} {runner : QueryRunner R}.

(** X19.  Outside the only-scopes and with no reference pending, a [Skip]
    directive followed by a query directive (no explain mode pending) has no
    effect outside the tester: no call on the reporter, on the runner or on
    a backend.  The loop goes on with the rest, [skip] cleared. *)
Theorem skip_then_query_does_nothing
    (text : string) (line : Z) (q : data.Query) (rest : list data.Query)
    (t : Tester R) (w : World) :
  vitessOnly (state t) || mysqlOnly (state t) || reference (state t) = false ->
  vexplain t = "" ->
  data.Type_ q = typ.Query ->
  Run_loop E (directive typ.Skip text line :: q :: rest) t w
  = Run_loop E rest (set_state (set_skip false (state t)) t) w.
Proof.
  intros Hguard Hv Hq. cbn [Run_loop].
  unfold bind at 1. unfold Run_step at 1. cbn [directive data.Type_].
  unfold bind at 1. unfold update_state, modify. unfold ret at 1.
  unfold skipNext. rewrite Hguard.
  unfold bind at 1. unfold Run_step. rewrite Hq.
  unfold bind at 1. unfold get. cbn [vexplain set_state]. rewrite Hv. cbn [String.eqb negb].
  unfold bind at 1. unfold bind at 1. unfold ret at 1.
  rewrite Tester_runQuery_cases. cbn zeta. cbn [state set_state].
  unfold shouldSkip at 1. cbn [skip set_skip fst].
  unfold ret. destruct t as [vs ve ee st qr0]. cbn. reflexivity.
Qed.

(** X20.  A pending explain mode is used up by the next query directive even
    when that query is skipped: the explain statement goes to the target, its
    first cell goes to the reporter, and the query itself is not run. *)
Theorem vexplain_runs_for_skipped_query
    (q : data.Query) (t : Tester R) (w : World) (rs : option Result) (cell : string) :
  data.Type_ q = typ.Query ->
  vexplain t <> "" ->
  skip (state t) = true ->
  execute_fetch E (hist w) VtConn (vexplain_sql (vexplain t) q) (-1) false = (rs, None) ->
  first_cell rs = Some cell ->
  Run_step E q t w
  = Done None
         (set_state (set_skip false (state t)) (set_vexplain "" t))
         (log (EvAddInfo ("VExplain Output:" ++ newline ++ " " ++ cell ++ newline)%string)
              (log (EvExecuteFetch VtConn (vexplain_sql (vexplain t) q) (-1) false) w)).
Proof.
  intros Hq Hv Hskip Hexec Hcell. unfold Run_step. rewrite Hq.
  unfold bind at 1. unfold get.
  apply String.eqb_neq in Hv. rewrite Hv. cbn [negb].
  unfold bind at 1. unfold run_vexplain.
  unfold bind at 1. unfold get.
  unfold bind at 1. unfold ExecuteFetch. fold (vexplain_sql (vexplain t) q). rewrite Hexec.
  unfold bind at 1. unfold modify. cbn [snd fst].
  unfold bind at 1. unfold ret at 1.
  unfold bind at 1. unfold first_cell_or_panic. rewrite Hcell. unfold ret at 1.
  unfold AddInfo, emit.
  unfold bind at 1. rewrite Tester_runQuery_cases. cbn zeta.
  cbn [state set_vexplain]. unfold shouldSkip at 1. rewrite Hskip. cbn [fst].
  unfold shouldSkip. rewrite Hskip. cbn [snd]. unfold ret.
  destruct t as [vs ve ee st qr0]. reflexivity.
Qed.

(** X21.  [waitAuthoritative] leaves the tester as it was and always
    returns.  It calls [utils.WaitForAuthoritative] once, also when the
    directive has neither two nor three fields (then with empty names,
    after the failure was reported); only when a directive of two fields
    names a table that [findTable] does not resolve is there no call. *)
Theorem waitAuthoritative_waits_once (query : string) (t : Tester R) (w : World) :
  exists evs,
    waitAuthoritative E query t w = Done tt t (mkWorld (hist w ++ evs) (disk w)) /\
    length (filter is_waitAuthoritative evs)
    = match length (Split query space), findTable (vschema t) (idx (Split query space) 1) with
      | 2%nat, inl _ => 0%nat
      | _, _ => 1%nat
      end.
Proof.
  unfold waitAuthoritative.
  assert (Hwait : forall ks tbl w0,
             exists evs,
               wait_for E ks tbl t w0 = Done tt t (mkWorld (hist w0 ++ evs) (disk w0)) /\
               length (filter is_waitAuthoritative evs) = 1%nat).
  { intros ks tbl w0. unfold wait_for, bind, utils_WaitForAuthoritative.
    destruct (WaitForAuthoritative E (hist w0) ks tbl) as [e |].
    - eexists [_; _]. unfold AddFailure, emit, log. cbn [hist disk].
      rewrite <- app_assoc. split; reflexivity.
    - eexists [_]. split; reflexivity. }
  assert (Hbad : exists evs,
             (AddFailure ("expected table name and keyspace for wait_authoritative in: "
                            ++ query)%string ;; wait_for E "" "") t w
             = Done tt t (mkWorld (hist w ++ evs) (disk w)) /\
             length (filter is_waitAuthoritative evs) = 1%nat).
  { unfold bind, AddFailure, emit.
    destruct (Hwait "" "" (log (EvAddFailure ("expected table name and keyspace for wait_authoritative in: " ++ query)%string) w))
      as (evs & -> & Hlen).
    eexists (_ :: evs). cbn [log hist disk]. rewrite <- app_assoc.
    split; [reflexivity |]. cbn. exact Hlen. }
  destruct (length (Split query space)) as [| [| [| [| n]]]].
  - destruct Hbad as (evs & H1 & H2). exists evs. split; [exact H1 | exact H2].
  - destruct Hbad as (evs & H1 & H2). exists evs. split; [exact H1 | exact H2].
  - unfold bind, get.
    destruct (findTable (vschema t) (idx (Split query space) 1)) as [err | ks].
    + eexists [_]. split; reflexivity.
    + apply Hwait.
  - destruct (Hwait (idx (Split query space) 2) (idx (Split query space) 1) w)
      as (evs & H1 & H2).
    exists evs. split; [exact H1 |].
    first [exact H2 | destruct (findTable (vschema t) _); exact H2].
  - destruct Hbad as (evs & H1 & H2). exists evs. split; [exact H1 |].
    first [exact H2 | destruct (findTable (vschema t) _); exact H2].
Qed.

End DirectivePairs.

(** ** No dispatch without a backend *)

Lemma keeps_both_ret {X A} (P : X -> World -> Prop) (a : A) : keeps_both P (ret a).
Proof. intros x w H. exact H. Qed.

Lemma keeps_both_get {X} (P : X -> World -> Prop) : keeps_both P get.
Proof. intros x w H. exact H. Qed.

Lemma keeps_both_bind {X A B} (P : X -> World -> Prop) (m : M X A) (k : A -> M X B) :
  keeps_both P m -> (forall a, keeps_both P (k a)) -> keeps_both P (bind m k).
Proof.
  intros Hm Hk x w H. unfold bind. specialize (Hm x w H).
  destruct (m x w) as [a x' w' | x' w']; cbn in Hm.
  - apply Hk, Hm.
  - exact Hm.
Qed.

Lemma forallb_has_backend_quiet (evs : list Event) :
  filter is_runQuery evs = [] -> forallb has_backend evs = true.
Proof.
  induction evs as [| e evs IH]; cbn; [reflexivity |].
  destruct e; cbn; try exact IH. discriminate.
Qed.

Section BackendsInScope.
Variable E : Env.
Context {R : Type} {runner : QueryRunner R}.

Lemma backends_ok_log (e : Event) (t : Tester R) (w : World) :
  has_backend e = true -> backends_ok t w -> backends_ok t (log e w).
Proof.
  intros He [Hs Hw]. split; [exact Hs |].
  cbn. rewrite forallb_app, Hw. cbn. rewrite He. reflexivity.
Qed.

Lemma backends_ok_emit (e : Event) :
  has_backend e = true -> keeps_both (@backends_ok R) (emit e).
Proof. intros He t w H. cbn. apply backends_ok_log; assumption. Qed.

Lemma backends_ok_state (f : testerState -> testerState) (t : Tester R) (w : World) :
  (forall st, exclusive st -> exclusive (f st)) ->
  backends_ok t w -> backends_ok (set_state (f (state t)) t) w.
Proof. intros Hf [Hs Hw]. split; [apply Hf, Hs | exact Hw]. Qed.

Lemma backends_ok_update_state (f : testerState -> testerState) :
  (forall st, exclusive st -> exclusive (f st)) ->
  keeps_both (@backends_ok R) (update_state f).
Proof. intros Hf t w H. cbn. apply backends_ok_state; assumption. Qed.

Lemma backends_ok_on_state {A} (f : testerState -> A * testerState) :
  (forall st, exclusive st -> exclusive (snd (f st))) ->
  keeps_both (@backends_ok R) (on_state f).
Proof. intros Hf t w [Hs Hw]. split; [apply Hf, Hs | exact Hw]. Qed.

Lemma backends_ok_modify (f : Tester R -> Tester R) :
  (forall t, state (f t) = state t) -> keeps_both (@backends_ok R) (modify f).
Proof.
  intros Hf t w [Hs Hw]. split; [| exact Hw].
  cbn. unfold exclusive in *. rewrite Hf. exact Hs.
Qed.

Lemma backends_ok_wait_for ks tbl : keeps_both (@backends_ok R) (wait_for E ks tbl).
Proof.
  unfold wait_for. apply keeps_both_bind.
  - intros t w H. cbn. apply backends_ok_log; [reflexivity | exact H].
  - intros [e |]; [apply backends_ok_emit; reflexivity | apply keeps_both_ret].
Qed.

Lemma backends_ok_waitAuthoritative query :
  keeps_both (@backends_ok R) (waitAuthoritative E query).
Proof.
  unfold waitAuthoritative.
  destruct (length (Split query space)) as [| [| [| [| n]]]].
  1, 2, 5: apply keeps_both_bind;
    [apply backends_ok_emit; reflexivity | intros _; apply backends_ok_wait_for].
  - apply keeps_both_bind; [apply keeps_both_get |]. intros t.
    destruct (findTable _ _);
      [apply backends_ok_emit; reflexivity | apply backends_ok_wait_for].
  - apply backends_ok_wait_for.
Qed.

Lemma backends_ok_run_vexplain q : keeps_both (@backends_ok R) (run_vexplain E q).
Proof.
  unfold run_vexplain.
  apply keeps_both_bind; [apply keeps_both_get |]. intros t.
  apply keeps_both_bind.
  { intros t0 w H. cbn. apply backends_ok_log; [reflexivity | exact H]. }
  intros r.
  apply keeps_both_bind; [apply backends_ok_modify; reflexivity |]. intros _.
  apply keeps_both_bind.
  { destruct (snd r); [apply backends_ok_emit; reflexivity | apply keeps_both_ret]. }
  intros _.
  apply keeps_both_bind.
  { intros t0 w H. unfold first_cell_or_panic. destruct (first_cell (fst r)); exact H. }
  intros cell. apply backends_ok_emit. reflexivity.
Qed.

Lemma exclusive_has_backend (st : testerState) :
  exclusive st -> negb (mysqlOnly st) || negb (vitessOnly st) = true.
Proof. unfold exclusive. destruct (vitessOnly st), (mysqlOnly st); cbn; congruence. Qed.

Lemma backends_ok_Tester_runQuery q :
  quiet runner -> keeps_both (@backends_ok R) (Tester_runQuery E q).
Proof.
  intros Hquiet t w [Hs Hw]. rewrite Tester_runQuery_cases. cbn zeta.
  pose proof (shouldSkip_scopes (BinaryIsAtLeastAtVersion E) (state t)) as Hskip.
  assert (Hs1 : exclusive (snd (shouldSkip (BinaryIsAtLeastAtVersion E) (state t))))
    by (eapply exclusive_same_scopes; eassumption).
  destruct (fst (shouldSkip (BinaryIsAtLeastAtVersion E) (state t))).
  { split; [exact Hs1 | exact Hw]. }
  destruct (Parse E (data.Query_ q)) as [err | ast].
  { split; [exact Hs1 |]. cbn. rewrite !forallb_app, Hw. reflexivity. }
  cbn [state set_state expectedErrs qr].
  set (st1 := snd (shouldSkip (BinaryIsAtLeastAtVersion E) (state t))) in *.
  assert (Hs2 : exclusive (snd (shouldReference st1))).
  { eapply exclusive_same_scopes; [apply shouldReference_scopes | exact Hs1]. }
  match goal with
  | |- context [runQuery ?q' ?e ?c ?r ?w'] =>
      destruct (Hquiet q' e c r w') as (evs & Hhist & Hevs);
      destruct (runQuery q' e c r w') as [err r' w2 | r' w2]
  end; cbn [res_world] in Hhist; cbn [res_state res_world].
  - split; [exact Hs2 |].
    assert (Hw2 : forallb has_backend (hist w2) = true).
    { rewrite Hhist. cbn [log hist]. rewrite !forallb_app, Hw. cbn.
      rewrite (exclusive_has_backend st1 Hs1). cbn.
      apply forallb_has_backend_quiet, Hevs. }
    destruct err; cbn [log hist]; rewrite !forallb_app, Hw2; reflexivity.
  - split; [exact Hs2 |].
    rewrite Hhist. cbn [log hist]. rewrite !forallb_app, Hw. cbn.
    rewrite (exclusive_has_backend st1 Hs1). cbn.
    apply forallb_has_backend_quiet, Hevs.
Qed.

Lemma backends_ok_then_None {A} (m : M (Tester R) A) :
  keeps_both (@backends_ok R) m -> keeps_both (@backends_ok R) (m ;; ret (@None error)).
Proof. intros Hm. apply keeps_both_bind; [exact Hm | intros _; apply keeps_both_ret]. Qed.

Lemma backends_ok_Run_step q :
  quiet runner -> keeps_both (@backends_ok R) (Run_step E q).
Proof.
  intros Hquiet. unfold Run_step, report_if_error.
  destruct (data.Type_ q).
  - apply keeps_both_bind; [apply keeps_both_get |]. intros t.
    apply keeps_both_bind.
    { destruct (negb _); [apply backends_ok_run_vexplain | apply keeps_both_ret]. }
    intros _. apply backends_ok_then_None, backends_ok_Tester_runQuery, Hquiet.
  - apply backends_ok_then_None, backends_ok_modify. reflexivity.
  - apply backends_ok_then_None, backends_ok_update_state.
    intros st. apply exclusive_same_scopes, skipNext_scopes.
  - apply backends_ok_then_None, backends_ok_emit. reflexivity.
  - apply backends_ok_then_None, backends_ok_emit. reflexivity.
  - apply backends_ok_then_None, backends_ok_emit. reflexivity.
  - apply backends_ok_then_None, backends_ok_emit. reflexivity.
  - destruct (negb _); [apply backends_ok_then_None, backends_ok_emit; reflexivity |].
    destruct (Atoi E _); [apply backends_ok_then_None, backends_ok_emit; reflexivity |].
    apply backends_ok_then_None, backends_ok_update_state. intros st H. exact H.
  - destruct (negb _); [apply backends_ok_then_None, backends_ok_emit; reflexivity |].
    apply backends_ok_then_None, backends_ok_modify. reflexivity.
  - apply backends_ok_then_None, backends_ok_waitAuthoritative.
  - apply keeps_both_bind.
    { intros t w H. cbn. apply backends_ok_log; [reflexivity | exact H]. }
    intros [e |]; apply keeps_both_ret.
  - apply keeps_both_bind.
    { apply backends_ok_on_state. intros st.
      apply vitessOrMySQLOnly_exclusive;
        [apply beginVitessOnly_exclusive | apply endVitessOnly_exclusive]. }
    intros [e |]; apply backends_ok_then_None;
      [apply backends_ok_emit; reflexivity | apply keeps_both_ret].
  - apply keeps_both_bind.
    { apply backends_ok_on_state. intros st.
      apply vitessOrMySQLOnly_exclusive;
        [apply beginMySQLOnly_exclusive | apply endMySQLOnly_exclusive]. }
    intros [e |]; apply backends_ok_then_None;
      [apply backends_ok_emit; reflexivity | apply keeps_both_ret].
  - apply backends_ok_then_None, backends_ok_update_state.
    intros st. apply exclusive_same_scopes, referenceNext_scopes.
Qed.

Lemma backends_ok_Run_loop qs :
  quiet runner -> keeps_both (@backends_ok R) (Run_loop E qs).
Proof.
  intros Hquiet. induction qs as [| q rest IH]; cbn [Run_loop].
  - apply keeps_both_ret.
  - apply keeps_both_bind; [apply backends_ok_Run_step, Hquiet |].
    intros [err |]; [apply keeps_both_ret | exact IH].
Qed.

(** X22.  From a new tester, every query the loop hands to the runner has
    at least one backend in scope: [cfg.vitess] and [cfg.mysql] are never
    both false.  (The runner is one that logs no dispatch of its own, so
    the dispatches in the log are the tester's.) *)
Theorem every_dispatch_has_a_backend (qs : list data.Query)
    (vs : list (string * list string)) (qr0 : R) (w : World) :
  quiet runner ->
  forallb has_backend (hist w) = true ->
  forallb has_backend (hist (res_world (Run_loop E qs (NewTester vs qr0) w))) = true.
Proof.
  intros Hquiet Hw.
  apply (backends_ok_Run_loop qs Hquiet (NewTester vs qr0) w).
  split; [reflexivity | exact Hw].
Qed.

End BackendsInScope.

(** ** Instances of the further properties *)

Lemma equal_signatures_hash_alike_witness :
  transactions.Hash64 transactions.example_ToString transactions.example_tx
  = transactions.Hash64 transactions.example_ToString
      (transactions.set_Count 5 transactions.example_tx).
Proof.
  apply (equal_signatures_hash_alike transactions.example_ToString
           transactions.example_tx (transactions.set_Count 5 transactions.example_tx)).
  reflexivity.
Defined.

Lemma Add_keeps_buckets_ok_witness :
  transactions.map_ok transactions.example_ToString
    (transactions.Add transactions.example_ToString transactions.example_tx
       transactions.newTxSignatureMap).
Proof.
  destruct (Add_keeps_buckets_ok transactions.example_ToString) as [Hnew Hadd].
  apply Hadd. exact Hnew.
Defined.

Lemma Add_finds_and_keeps_witness :
  exists b' s',
    transactions.data
      (transactions.Add transactions.example_ToString
         (transactions.set_Count 3 transactions.example_tx)
         (transactions.Add transactions.example_ToString transactions.example_tx
            transactions.newTxSignatureMap))
      (transactions.Hash64 transactions.example_ToString transactions.example_tx)
    = Some b' /\
    In s' b' /\
    transactions.Queries s' = transactions.Queries transactions.example_tx.
Proof.
  destruct (Add_finds_and_keeps transactions.example_ToString
              (transactions.set_Count 3 transactions.example_tx)
              (transactions.Add transactions.example_ToString transactions.example_tx
                 transactions.newTxSignatureMap)) as (_ & _ & Hkeeps).
  apply (Hkeeps _ [transactions.set_Count 1 transactions.example_tx]
                (transactions.set_Count 1 transactions.example_tx)).
  - vm_compute. reflexivity.
  - left. reflexivity.
Defined.

Lemma equal_signatures_are_counted_witness :
  transactions.data
    (fold_left (fun m s => transactions.Add transactions.example_ToString s m)
               [transactions.example_tx; transactions.example_tx;
                transactions.set_Count 9 transactions.example_tx]
               transactions.newTxSignatureMap)
    (transactions.Hash64 transactions.example_ToString transactions.example_tx)
  = Some [transactions.set_Count 3 transactions.example_tx].
Proof.
  apply (equal_signatures_are_counted transactions.example_ToString
           transactions.example_tx
           [transactions.example_tx; transactions.set_Count 9 transactions.example_tx]
           transactions.newTxSignatureMap).
  - repeat constructor.
  - cbn. lia.
  - reflexivity.
Defined.

Lemma CleanUp_single_use_becomes_minus_one_witness :
  exists v',
    nth_error (transactions.values (transactions.CleanUp transactions.example_tx)) 1
      = Some v' /\
    (transactions.occurrences 9 (transactions.values transactions.example_tx) = 1%nat ->
       v' = (-1)%Z) /\
    (transactions.occurrences 9 (transactions.values transactions.example_tx) <> 1%nat ->
       (0 <= v' < Z.of_nat (length (transactions.values transactions.example_tx)))%Z).
Proof.
  apply (CleanUp_single_use_becomes_minus_one transactions.example_tx 1 9).
  reflexivity.
Defined.

Lemma CleanUp_renames_consistently_witness :
  (0 = 0 <-> 7 = 7)%Z.
Proof.
  apply (CleanUp_renames_consistently transactions.example_tx 0 2 7 7 0 0);
    try reflexivity; vm_compute; discriminate.
Defined.

Lemma findTable_sound_witness :
  "archive" <> "" /\
  exists tables, In ("archive", tables) example_vschema /\ In "old_log" tables.
Proof.
  apply (findTable_sound example_vschema "old_log" "archive"). reflexivity.
Defined.

Lemma findTable_missing_table_witness :
  findTable example_vschema "users" = inl "table users not found in any keyspace".
Proof.
  apply (findTable_missing_table example_vschema "users").
  intros ks tables Hin Hname. simpl in Hin.
  destruct Hin as [H | [H | []]]; injection H as <- <-; simpl in Hname;
    repeat (destruct Hname as [Hname | Hname]; [discriminate |]); exact Hname.
Defined.

Lemma sharding_keys_not_empty_witness :
  fst (getShardingKeysForTable example_spec) <> [].
Proof.
  apply (sharding_keys_not_empty example_spec). discriminate.
Defined.

Lemma trace_appends_one_object_witness :
  exists queryJSON prettyTrace,
    file_agrees "[" ([] ++ [json_object queryJSON (data.Line select2) prettyTrace])
      (res_state (Tracer_trace goodEnv select2 tracer0 opened))
      (res_world (Tracer_trace goodEnv select2 tracer0 opened)).
Proof.
  apply (trace_appends_one_object goodEnv "[" [] select2 tracer0 _ opened _).
  - split; reflexivity.
  - vm_compute. reflexivity.
Defined.

Lemma trace_without_write_changes_nothing_witness :
  res_state (Tracer_trace downEnv select2 tracer0 opened) = tracer0 /\
  disk (res_world (Tracer_trace downEnv select2 tracer0 opened)) = disk opened.
Proof.
  apply (trace_without_write_changes_nothing downEnv select2 tracer0 opened).
  - discriminate.
  - reflexivity.
Defined.

Lemma skip_then_query_does_nothing_witness :
  Run_loop goodEnv [directive typ.Skip "skip" 1; select2] (NewTester [] stubRunner) emptyWorld
  = Run_loop goodEnv []
             (set_state (set_skip false (state (NewTester [] stubRunner)))
                        (NewTester [] stubRunner))
             emptyWorld.
Proof.
  apply (skip_then_query_does_nothing goodEnv "skip" 1 select2 []
           (NewTester [] stubRunner) emptyWorld); reflexivity.
Defined.

Lemma vexplain_runs_for_skipped_query_witness :
  Run_step goodEnv select2 explain_and_skip emptyWorld
  = Done None
         (set_state (set_skip false (state explain_and_skip))
                    (set_vexplain "" explain_and_skip))
         (log (EvAddInfo ("VExplain Output:" ++ newline ++ " " ++ "{}" ++ newline)%string)
              (log (EvExecuteFetch VtConn
                      (vexplain_sql (vexplain explain_and_skip) select2) (-1) false)
                   emptyWorld)).
Proof.
  apply (vexplain_runs_for_skipped_query goodEnv select2 explain_and_skip emptyWorld
           (Some (mkResult [["{}"]])) "{}"); try reflexivity.
  discriminate.
Defined.

Lemma stubRunner_quiet : quiet StubRunner_QueryRunner.
Proof. intros q expectErr cfg r w. exists []. cbn. rewrite app_nil_r. auto. Qed.

Lemma every_dispatch_has_a_backend_witness :
  forallb has_backend
    (hist (res_world
             (Run_loop goodEnv
                [directive typ.VitessOnly "vitess_only begin" 1; select2;
                 directive typ.MysqlOnly "mysql_only begin" 3; select2]
                (NewTester [] stubRunner) emptyWorld)))
  = true.
Proof.
  apply (every_dispatch_has_a_backend goodEnv _ [] stubRunner emptyWorld).
  - exact stubRunner_quiet.
  - reflexivity.
Defined.
